(** * Novel Quest: pagination, position restore, auto-save and rate limiting

    A shallow embedding of the reading engine of the Novel Quest client.
    The repository holds three revisions of the same React component:

    - [App1]    : src/src/App.jsx, first document (lines 1-802); remote
                  position in Firestore, no local storage;
    - [App2]    : src/src/App.jsx, second document (lines 802-1746); local
                  storage persistence, rate limiter, 50-page PDF cap;
    - [Part000] : src/unnamed/part_000; local storage persistence,
                  one-shot restore flag, 100-page PDF cap.

    The three revisions share the paginator verbatim, up to the text of the
    placeholder page. *)

From Stdlib Require Import ZArith NArith Lia.
From Stdlib Require Import Strings.String Strings.Ascii.
From Stdlib Require Import Sorting.Sorted.
From stdpp Require Import base list strings gmap.

Local Open Scope nat_scope.

(** ** JavaScript strings and the array methods the paginator uses *)

Module JS.

(** A JavaScript string is a sequence of UTF-16 code units. *)
Abbreviation jsstring := (list N).

(** An ASCII literal as a JavaScript string. *)
Definition lit (s : string) : jsstring :=
  map N_of_ascii (list_ascii_of_string s).

(** The character class [\s] of ECMAScript regular expressions (WhiteSpace
    and LineTerminator), matched per code unit since the pattern has no
    [u] flag. *)
Definition is_space (c : N) : bool :=
  (((9 <=? c) && (c <=? 13)) || (c =? 32) || (c =? 160) || (c =? 5760)
   || ((8192 <=? c) && (c <=? 8202)) || (c =? 8232) || (c =? 8233)
   || (c =? 8239) || (c =? 8287) || (c =? 12288) || (c =? 65279))%N.

(** [s.split(/\s+/)].  The scan keeps the piece collected since the end of
    the last separator ([piece], the substring from p to q of the
    specification of [split]) and whether the scan is inside a greedy match
    of [\s+] ([in_sep]).  At the end of the string the last piece is pushed
    even when it is empty, so the empty string splits into one empty
    piece. *)
Fixpoint split_ws_from (piece : jsstring) (in_sep : bool) (s : jsstring)
  : list jsstring :=
  match s with
  | [] => [piece]
  | c :: s' =>
      if is_space c then
        if in_sep then split_ws_from [] true s'
        else piece :: split_ws_from [] true s'
      else split_ws_from (piece ++ [c]) false s'
  end.

Definition split_ws (s : jsstring) : list jsstring := split_ws_from [] false s.

(** [Boolean(s)] on a string: the empty string is the only falsy one. *)
Definition truthy (s : jsstring) : bool :=
  match s with
  | [] => false
  | _ :: _ => true
  end.

(** [x || d] on strings. *)
Definition or_else (x d : jsstring) : jsstring := if truthy x then x else d.

(** [s.trim()] is empty exactly when every code unit of [s] is white
    space; [blank s] is [!s.trim()]. *)
Definition blank (s : jsstring) : bool := forallb is_space s.

(** [arr.slice(i, j)] for [0 <= i]; both ends are clamped to the length. *)
Definition slice {A} (i j : nat) (arr : list A) : list A :=
  take (j - i) (drop i arr).

(** [arr.join(sep)] on an array of strings. *)
Fixpoint join (sep : jsstring) (arr : list jsstring) : jsstring :=
  match arr with
  | [] => []
  | x :: rest =>
      match rest with
      | [] => x
      | _ :: _ => x ++ sep ++ join sep rest
      end
  end.

(** The numbers the component handles as page indexes are integers
    ([parseInt] of a [data-page-index] attribute, or such a number written
    with [String] and read back with [Number]), or [NaN]. *)
Inductive jsnum : Type :=
| NaN
| Num (z : Z).

(** [x || 0] on a number: [NaN] and [0] are falsy. *)
Definition or_zero (x : jsnum) : Z :=
  match x with
  | NaN => 0%Z
  | Num z => z
  end.

(** [Math.ceil(a / b)] for integers [a] and [0 < b]. *)
Definition ceil_div (a b : Z) : Z := (- ((- a) / b))%Z.

(** [s.trimStart()], [s.trimEnd()] and [s.trim()]: the code units removed
    are the white space and line terminators, the class [\s]. *)
Fixpoint trimStart (s : jsstring) : jsstring :=
  match s with
  | [] => []
  | c :: s' => if is_space c then trimStart s' else s
  end.

Definition trimEnd (s : jsstring) : jsstring := rev (trimStart (rev s)).

Definition trim (s : jsstring) : jsstring := trimEnd (trimStart s).

(** [s.substring(0, n)] *)
Definition substring0 (n : nat) (s : jsstring) : jsstring := take n s.

End JS.

Import JS.

(** ** The paginator *)

Definition WORDS_PER_PAGE : nat := 275.

Definition SPACE : jsstring := lit " ".

(** [text.split(/\s+/).filter(Boolean)] *)
Definition words (text : jsstring) : list jsstring :=
  List.filter truthy (split_ws text).

(** The [for] loop of [getPages]; it runs at most [length words] times, as
    [i] grows by [WORDS_PER_PAGE] on each turn. *)
Fixpoint getPages_loop (fuel i : nat) (ws : list jsstring)
    (result : list jsstring) : list jsstring :=
  match fuel with
  | 0 => result
  | S fuel' =>
      if i <? length ws then
        getPages_loop fuel' (i + WORDS_PER_PAGE) ws
          (result ++ [join SPACE (slice i (i + WORDS_PER_PAGE) ws)])
      else result
  end.

Section Paginator.

(** The placeholder page differs between the revisions. *)
Variable placeholder : jsstring.

Definition getPages (text : jsstring) : list jsstring :=
  let ws := words text in
  let result := getPages_loop (length ws) 0 ws [] in
  if 0 <? length result then result else [placeholder].

End Paginator.

(** The tokenizer of the specification: split on runs of whitespace and
    discard empty tokens.  [cur] is the token being read. *)
Fixpoint tokens_from (cur : jsstring) (s : jsstring) : list jsstring :=
  match s with
  | [] => if truthy cur then [cur] else []
  | c :: s' =>
      if is_space c then
        if truthy cur then cur :: tokens_from [] s' else tokens_from [] s'
      else tokens_from (cur ++ [c]) s'
  end.

Definition tokenize (s : jsstring) : list jsstring := tokens_from [] s.

(** A partition into consecutive groups of exactly [n] elements, the last
    one possibly shorter (and never empty). *)
Fixpoint chunked {A} (n : nat) (groups : list (list A)) : Prop :=
  match groups with
  | [] => True
  | g :: rest =>
      match rest with
      | [] => 0 < length g <= n
      | _ :: _ => length g = n /\ chunked n rest
      end
  end.

(** ** The page elements and the scroll command

    The reader renders one element [page-i] per page, [0 <= i < pageCount]
    ([pages.map((p, i) => <div id={`page-${i}`} data-page-index={i} ...>)]).
    [scrollToPage] looks the element up and scrolls to it when it exists;
    the result is the page scrolled to, if any. *)
Definition scrollToPage (pageCount : nat) (index : Z) : option nat :=
  if ((0 <=? index) && (index <? Z.of_nat pageCount))%Z
  then Some (Z.to_nat index) else None.

(** The page elements the document holds at a given moment.  While the
    component returns its loading screen (App.jsx line 1391, part_000
    line 351: authentication has not settled), no page element is
    rendered; once the reader is rendered there is one per page. *)
Definition pageElements (readerShown : bool) (pageCount : nat) : nat :=
  if readerShown then pageCount else 0.

(** ** The document store (Firestore), per user *)

Record source : Type := {
  src_name : jsstring;
  src_content : jsstring;
  src_timestamp : Z
}.

(** The document [settings/lastPosition]. *)
Record position : Type := {
  pos_docId : jsstring;
  pos_docName : jsstring;
  pos_page : Z;
  pos_timestamp : Z
}.

Record firestore : Type := {
  sources : gmap (list N) source;
  lastPosition : option position
}.

(** ** PDF text extraction

    A PDF document as [pdf.js] presents it: its pages, each with the
    strings of its text items.  [getPage i] is defined for
    [1 <= i <= numPages] and rejects otherwise. *)
Abbreviation pdf := (list (list jsstring)).

Definition numPages (doc : pdf) : nat := length doc.

Definition getPage (doc : pdf) (i : nat) : option (list jsstring) :=
  match i with
  | 0 => None
  | S j => doc !! j
  end.

(** The body of the extraction loop:
    [fullText += items.map(item => item.str).join(' ') + '\n']. *)
Definition pageText (items : list jsstring) : jsstring :=
  join SPACE items ++ [10%N].

(** [for (let i = 1; i <= Math.min(pdf.numPages, cap); i++) ...]; a rejected
    [getPage] aborts the upload. *)
Fixpoint extract_loop (doc : pdf) (indices : list nat) (fullText : jsstring)
  : option jsstring :=
  match indices with
  | [] => Some fullText
  | i :: rest =>
      match getPage doc i with
      | None => None
      | Some items => extract_loop doc rest (fullText ++ pageText items)
      end
  end.

Definition extractText (cap : nat) (doc : pdf) : option jsstring :=
  extract_loop doc (seq 1 (Nat.min (numPages doc) cap)) [].

(** ** Sanitized ids

    [String(id).replace(/[^a-zA-Z0-9]/g, '_')], applied to the application
    id and to the uid before they become segments of a document path. *)
Definition is_alnum (c : N) : bool :=
  (((48 <=? c) && (c <=? 57)) || ((65 <=? c) && (c <=? 90))
   || ((97 <=? c) && (c <=? 122)))%N.

Definition UNDERSCORE : N := 95%N.

Definition sanitize (id : jsstring) : jsstring :=
  map (fun c => if is_alnum c then c else UNDERSCORE) id.

(** ** The library

    The snapshot listener of the [sources] collection turns every document
    into an entry (its id and its fields) and sorts the entries with
    [docs.sort((a, b) => (b.timestamp || 0) - (a.timestamp || 0))].
    [Array.prototype.sort] is stable, and a stable sort by a consistent
    comparator has one result; it is computed here by insertion. *)
Definition entry_timestamp (e : jsstring * source) : Z := src_timestamp (snd e).

(** The order of the library: newer entries first. *)
Definition newer_first (a b : jsstring * source) : Prop :=
  (entry_timestamp b <= entry_timestamp a)%Z.

(** [e] goes before the first entry that the comparator does not put
    before it. *)
Fixpoint insert_entry (e : jsstring * source) (l : list (jsstring * source))
  : list (jsstring * source) :=
  match l with
  | [] => [e]
  | e' :: l' =>
      if (entry_timestamp e' <=? entry_timestamp e)%Z then e :: e' :: l'
      else e' :: insert_entry e l'
  end.

Definition sortSources (docs : list (jsstring * source))
  : list (jsstring * source) :=
  foldr insert_entry [] docs.

(** [sources.find(s => s.id === id)] *)
Definition findSource (id : jsstring) (library : list (jsstring * source))
  : option (jsstring * source) :=
  List.find (fun e => bool_decide (fst e = id)) library.

(** The scroll commands of a handler run in the order of their delays;
    one that finds no page element leaves the view where it is. *)
Definition scrollAll (pageCount : nat) (view : option nat) (targets : list Z)
  : option nat :=
  foldl (fun v index =>
           match scrollToPage pageCount index with
           | Some k => Some k
           | None => v
           end) view targets.

(** ** First revision: src/src/App.jsx, lines 1-802 *)

Module App1.

Definition placeholder : jsstring :=
  lit "(Vault empty. Sign in and upload a manuscript to begin analysis.)".

Definition getPages : jsstring -> list jsstring := getPages placeholder.

(** The component state the position logic reads.  [user] is the uid of
    the signed-in user, [currentDocId] is [null] or a document id. *)
Record state : Type := {
  user : option jsstring;
  text : jsstring;
  currentDocId : option jsstring;
  currentDocName : jsstring;
  currentPage : Z;
  isRestoring : bool;
  savedPosition : option position   (* the state [lastPosition] *)
}.

(** [Boolean(currentDocId)]: [null] and the empty string are falsy. *)
Definition has_doc (id : option jsstring) : bool :=
  match id with
  | Some d => truthy d
  | None => false
  end.

(** *** Restore from the remote position (lines 272-297)

    The snapshot listener of [settings/lastPosition].  It is created by
    the effect that depends on [user] only, so [isRestoring] and
    [currentDocId] are the values [captured] by that render.  The result
    is the new state and the argument of the deferred [scrollToPage]. *)
Definition onPositionSnapshot (fs : firestore) (captured : state)
    (s : state) : state * option Z :=
  match lastPosition fs with
  | Some data =>
      let s1 := {| user := user s; text := text s;
                   currentDocId := currentDocId s;
                   currentDocName := currentDocName s;
                   currentPage := currentPage s;
                   isRestoring := isRestoring s;
                   savedPosition := Some data |} in
      if isRestoring captured && truthy (pos_docId data)
         && negb (has_doc (currentDocId captured))
      then
        match sources fs !! pos_docId data with
        | Some src =>
            ({| user := user s;
                text := src_content src;
                currentDocId := Some (pos_docId data);
                currentDocName := or_else (src_name src) (lit "Untitled");
                currentPage := currentPage s;
                isRestoring := false;
                savedPosition := Some data |},
             Some (pos_page data))
        | None =>
            ({| user := user s; text := text s;
                currentDocId := currentDocId s;
                currentDocName := currentDocName s;
                currentPage := currentPage s;
                isRestoring := false;
                savedPosition := Some data |}, None)
        end
      else (s1, None)
  | None =>
      ({| user := user s; text := text s;
          currentDocId := currentDocId s;
          currentDocName := currentDocName s;
          currentPage := currentPage s;
          isRestoring := false;
          savedPosition := savedPosition s |}, None)
  end.

(** The page the remote restore scrolls to, if any: the deferred
    [scrollToPage(data.page || 0)] runs against the pages of the restored
    text. *)
Definition restoreScroll (fs : firestore) (captured s : state) : option nat :=
  let '(s', target) := onPositionSnapshot fs captured s in
  match target with
  | Some index => scrollToPage (length (getPages (text s'))) index
  | None => None
  end.

(** *** Position auto-save (lines 304-322)

    The effect depends on
    [currentPage, currentDocId, user, isRestoring, currentDocName]. *)
Definition deps (s : state)
  : option jsstring * option jsstring * jsstring * Z * bool :=
  (user s, currentDocId s, currentDocName s, currentPage s, isRestoring s).

(** What the timer callback writes, apart from the time stamp: the uid
    that selects the document path and the fields captured by the
    closure. *)
Record payload : Type := {
  p_user : jsstring;
  p_docId : jsstring;
  p_docName : jsstring;
  p_page : Z
}.

Record timer : Type := {
  t_id : nat;
  t_due : Z;
  t_payload : payload
}.

(** A remote write: [setDoc(posRef, {docId, docName, page, timestamp})]. *)
Record write : Type := {
  w_user : jsstring;
  w_position : position
}.

Definition AUTOSAVE_DELAY : Z := 2000.

(** The component inside the event loop: the clock, the state of the last
    render, the cleanup of the auto-save effect (the timer it clears),
    the pending timers and the log of remote writes issued so far. *)
Record world : Type := {
  now : Z;
  mounted : bool;
  rendered : state;
  cleanup : option nat;
  timers : list timer;
  next_timer : nat;
  remote : list write
}.

(** [clearTimeout(id)] *)
Definition clearTimeout (id : nat) (ts : list timer) : list timer :=
  List.filter (fun t => negb (t_id t =? id)) ts.

(** The guard of the effect:
    [if (!user || !db || !currentDocId || isRestoring) return;]
    and, past it, the closure handed to [setTimeout]. *)
Definition autosave_payload (s : state) : option payload :=
  match user s, currentDocId s with
  | Some u, Some d =>
      if truthy d && negb (isRestoring s)
      then Some {| p_user := u; p_docId := d;
                   p_docName := currentDocName s; p_page := currentPage s |}
      else None
  | _, _ => None
  end.

(** Running the effect body for the state [s]. *)
Definition run_effect (s : state) (w : world) : world :=
  match autosave_payload s with
  | Some p =>
      {| now := now w; mounted := mounted w; rendered := s;
         cleanup := Some (next_timer w);
         timers := timers w ++ [{| t_id := next_timer w;
                                   t_due := (now w + AUTOSAVE_DELAY)%Z;
                                   t_payload := p |}];
         next_timer := S (next_timer w);
         remote := remote w |}
  | None =>
      {| now := now w; mounted := mounted w; rendered := s;
         cleanup := None; timers := timers w;
         next_timer := next_timer w; remote := remote w |}
  end.

(** Running the cleanup of the previous effect run, if it returned one. *)
Definition run_cleanup (w : world) : world :=
  match cleanup w with
  | Some id =>
      {| now := now w; mounted := mounted w; rendered := rendered w;
         cleanup := None; timers := clearTimeout id (timers w);
         next_timer := next_timer w; remote := remote w |}
  | None => w
  end.

(** The write a timer issues when it fires (on time). *)
Definition fire (t : timer) : write :=
  {| w_user := p_user (t_payload t);
     w_position := {| pos_docId := p_docId (t_payload t);
                      pos_docName := p_docName (t_payload t);
                      pos_page := p_page (t_payload t);
                      pos_timestamp := t_due t |} |}.

Definition is_due (t : Z) (tm : timer) : bool := (t_due tm <=? t)%Z.

(** The events of the loop.  Handlers run to completion: the cleanup and
    the effect of a render run before the next event is handled, and a
    timer fires when the clock reaches its due time. *)
Inductive event : Type :=
| Elapse (t : Z)        (* the clock reaches [t] *)
| Render (s : state)    (* a render commits the state [s] *)
| Unmount.              (* the component is torn down *)

Definition step (w : world) (e : event) : world :=
  match e with
  | Elapse t =>
      let t' := Z.max (now w) t in
      {| now := t'; mounted := mounted w; rendered := rendered w;
         cleanup := cleanup w;
         timers := List.filter (fun tm => negb (is_due t' tm)) (timers w);
         next_timer := next_timer w;
         remote := remote w ++ map fire (List.filter (is_due t') (timers w)) |}
  | Render s =>
      if negb (mounted w) then w
      else if bool_decide (deps s = deps (rendered w))
      then {| now := now w; mounted := true; rendered := s;
              cleanup := cleanup w; timers := timers w;
              next_timer := next_timer w; remote := remote w |}
      else run_effect s (run_cleanup w)
  | Unmount =>
      if negb (mounted w) then w
      else
        let w' := run_cleanup w in
        {| now := now w'; mounted := false; rendered := rendered w';
           cleanup := None; timers := timers w';
           next_timer := next_timer w'; remote := remote w' |}
  end.

(** The first render at time [t0]: every effect runs once. *)
Definition mount (t0 : Z) (s : state) : world :=
  run_effect s {| now := t0; mounted := true; rendered := s; cleanup := None;
                  timers := []; next_timer := 0; remote := [] |}.

Definition run (w : world) (es : list event) : world := foldl step w es.

Inductive reachable : world -> Prop :=
| reach_mount t0 s : reachable (mount t0 s)
| reach_step w e : reachable w -> reachable (step w e).

Definition setCurrentPage (idx : Z) (s : state) : state :=
  {| user := user s; text := text s; currentDocId := currentDocId s;
     currentDocName := currentDocName s; currentPage := idx;
     isRestoring := isRestoring s; savedPosition := savedPosition s |}.

(** The intersection observer (lines 343-354) reports page [snd tp] at
    time [fst tp]: [setCurrentPage(idx)], then the render it causes. *)
Definition pageChange (w : world) (tp : Z * Z) : world :=
  let w1 := step w (Elapse (fst tp)) in
  step w1 (Render (setCurrentPage (snd tp) (rendered w1))).

(** A burst of page changes after the change to [p0] at time [t0]: each
    one arrives less than the quiet interval after the one before it and
    reports a different page. *)
Fixpoint burst (t0 p0 : Z) (changes : list (Z * Z)) : Prop :=
  match changes with
  | [] => True
  | (t, p) :: rest =>
      (t0 <= t < t0 + AUTOSAVE_DELAY)%Z /\ p <> p0 /\ burst t p rest
  end.

(** [loadFromLibrary], [handleFileUpload] and the restore set the text,
    the name and the id of the document together. *)
Definition switchDocument (id name content : jsstring) (s : state) : state :=
  {| user := user s; text := content; currentDocId := Some id;
     currentDocName := name; currentPage := currentPage s;
     isRestoring := isRestoring s; savedPosition := savedPosition s |}.

(** [handleSignOut]: [setUser(null); setText(""); setCurrentDocId(null)]. *)
Definition handleSignOut (s : state) : state :=
  {| user := None; text := []; currentDocId := None;
     currentDocName := currentDocName s; currentPage := currentPage s;
     isRestoring := isRestoring s; savedPosition := savedPosition s |}.

(** [handleFileUpload] (lines 369-397): every page of the PDF is read. *)
Definition handleFileUpload (isPdfLibReady : bool)
    (file : option (jsstring * pdf)) (newId : jsstring) (timestamp : Z)
    (s : state) : option source * state :=
  match user s with
  | None => (None, s)
  | Some _ =>
      match file with
      | None => (None, s)
      | Some (name, doc) =>
          if negb isPdfLibReady then (None, s)
          else
            match extract_loop doc (seq 1 (numPages doc)) [] with
            | None => (None, s)
            | Some full =>
                (Some {| src_name := name; src_content := full;
                         src_timestamp := timestamp |},
                 switchDocument newId name full s)
            end
      end
  end.

(** [loadFromLibrary] (lines 482-489); it ends with a deferred
    [scrollToPage(0)]. *)
Definition loadFromLibrary (e : jsstring * source) (s : state) : state :=
  switchDocument (fst e) (or_else (src_name (snd e)) (lit "Untitled"))
    (src_content (snd e)) s.

(** [deleteFromLibrary] (lines 492-502), once [deleteDoc] has succeeded. *)
Definition deleteFromLibrary (id : jsstring) (s : state) : state :=
  match user s with
  | None => s
  | Some _ =>
      if bool_decide (currentDocId s = Some id) then
        {| user := user s; text := []; currentDocId := None;
           currentDocName := lit "Untitled Manuscript";
           currentPage := currentPage s; isRestoring := isRestoring s;
           savedPosition := savedPosition s |}
      else s
  end.

(** [resumeLastPosition] (lines 505-512): the new state and the arguments
    of the deferred [scrollToPage] calls, in the order of their delays
    (100 ms for the one of [loadFromLibrary], 200 ms for the saved
    page). *)
Definition resumeLastPosition (library : list (jsstring * source))
    (s : state) : state * list Z :=
  match savedPosition s with
  | None => (s, [])
  | Some pos =>
      if truthy (pos_docId pos) then
        match findSource (pos_docId pos) library with
        | Some e => (loadFromLibrary e s, [0%Z; pos_page pos])
        | None => (s, [])
        end
      else (s, [])
  end.

(** The document store after a remote write of the user:
    [setDoc(posRef, {docId, docName, page, timestamp}, {merge: true})]
    sets all four fields of [settings/lastPosition]. *)
Definition applyWrite (wr : write) (fs : firestore) : firestore :=
  {| sources := sources fs; lastPosition := Some (w_position wr) |}.

End App1.

(** ** Second revision: src/src/App.jsx, lines 802-1746 *)

Module App2.

Definition placeholder : jsstring :=
  lit "(Vault empty. Sign in to upload document.)".

Definition getPages : jsstring -> list jsstring := getPages placeholder.

Definition AI_CALL_DELAY : Z := 1500.

Definition PDF_PAGE_CAP : nat := 50.

(** The entries of [localStorage] the reading position lives in, one field
    per key; [None] is an absent key.  The page entry is written with
    [String(currentPage)] and read with [Number(saved)]: the field holds
    the number the stored string denotes. *)
Record local_store : Type := {
  novelQuestText : option jsstring;
  novelQuestCurrentDocId : option jsstring;
  novelQuestCurrentDocName : option jsstring;
  novelQuestCurrentPage : option jsnum
}.

Record state : Type := {
  user : option jsstring;
  text : jsstring;
  currentDocId : option jsstring;
  currentDocName : jsstring;
  currentPage : Z;
  lastAiCall : Z;
  nextCallAvailable : Z;
  localStorage : local_store
}.

Definition pages (s : state) : list jsstring := getPages (text s).

(** The lazy initializers of [useState] (lines 865-898). *)
Definition init (ls : local_store) : state :=
  {| user := None;
     text := default [] (novelQuestText ls);
     currentDocId :=
       match novelQuestCurrentDocId ls with
       | Some saved => if truthy saved then Some saved else None
       | None => None
       end;
     currentDocName :=
       or_else (default [] (novelQuestCurrentDocName ls))
               (lit "Untitled Manuscript");
     currentPage :=
       match novelQuestCurrentPage ls with
       | Some saved => or_zero saved
       | None => 0%Z
       end;
     lastAiCall := 0%Z;
     nextCallAvailable := 0%Z;
     localStorage := ls |}.

(** The save effect (lines 920-932): every render that changed one of its
    dependencies rewrites the entries. *)
Definition persist (s : state) : state :=
  {| user := user s; text := text s; currentDocId := currentDocId s;
     currentDocName := currentDocName s; currentPage := currentPage s;
     lastAiCall := lastAiCall s; nextCallAvailable := nextCallAvailable s;
     localStorage :=
       {| novelQuestText := Some (text s);
          novelQuestCurrentDocId := Some (default [] (currentDocId s));
          novelQuestCurrentDocName := Some (currentDocName s);
          novelQuestCurrentPage := Some (Num (currentPage s)) |} |}.

Definition setCurrentPage (idx : Z) (s : state) : state :=
  {| user := user s; text := text s; currentDocId := currentDocId s;
     currentDocName := currentDocName s; currentPage := idx;
     lastAiCall := lastAiCall s; nextCallAvailable := nextCallAvailable s;
     localStorage := localStorage s |}.

Definition setUser (u : option jsstring) (s : state) : state :=
  {| user := u; text := text s; currentDocId := currentDocId s;
     currentDocName := currentDocName s; currentPage := currentPage s;
     lastAiCall := lastAiCall s; nextCallAvailable := nextCallAvailable s;
     localStorage := localStorage s |}.

(** An entry handed to the callback of the intersection observer:
    [entry.isIntersecting] and
    [parseInt(entry.target.getAttribute('data-page-index'))]. *)
Record entry : Type := {
  isIntersecting : bool;
  pageIndexAttr : jsnum
}.

(** The callback of the intersection observer (lines 1185-1191): every
    intersecting entry whose attribute parses to a number stores that
    number; nothing compares it with the page count. *)
Definition onEntry (e : entry) (s : state) : state :=
  if isIntersecting e then
    match pageIndexAttr e with
    | Num idx => setCurrentPage idx s
    | NaN => s
    end
  else s.

Definition onIntersection (entries : list entry) (s : state) : state :=
  foldl (fun s' e => onEntry e s') s entries.

(** What the observer is attached to (line 1193): the elements with a
    [data-page-index] attribute in the document, that is the page
    elements of the current render, [data-page-index={i}] for every page
    [i] (lines 1444-1448).  The list holds what their attributes parse
    to. *)
Definition observed (readerShown : bool) (s : state) : list jsnum :=
  map (fun i => Num (Z.of_nat i))
      (seq 0 (pageElements readerShown (length (pages s)))).

(** The index the auto-scroll effect passes to [scrollToPage]
    (lines 1198-1202). *)
Definition safeIndex (s : state) : Z :=
  Z.min (currentPage s) (Z.of_nat (length (pages s)) - 1).

(** The auto-scroll effect arms one timer of 300 ms per run (its
    dependency is [pages.length]); [elements] is the number of page
    elements in the document when the timer fires, and the result is the
    page scrolled to, if any. *)
Definition autoScroll (elements : nat) (s : state) : option nat :=
  if length (pages s) =? 0 then None
  else scrollToPage elements (safeIndex s).

(** [loadFromLibrary] (lines 1230-1237) *)
Definition loadFromLibrary (id : jsstring) (src : source) (s : state) : state :=
  {| user := user s; text := src_content src; currentDocId := Some id;
     currentDocName := or_else (src_name src) (lit "Untitled");
     currentPage := currentPage s;
     lastAiCall := lastAiCall s; nextCallAvailable := nextCallAvailable s;
     localStorage := localStorage s |}.

(** [deleteFromLibrary] (lines 1240-1254), once [deleteDoc] has
    succeeded. *)
Definition deleteFromLibrary (id : jsstring) (s : state) : state :=
  match user s with
  | None => s
  | Some _ =>
      if bool_decide (currentDocId s = Some id) then
        {| user := user s; text := []; currentDocId := None;
           currentDocName := lit "Untitled Manuscript";
           currentPage := currentPage s;
           lastAiCall := lastAiCall s;
           nextCallAvailable := nextCallAvailable s;
           localStorage :=
             {| novelQuestText := novelQuestText (localStorage s);
                novelQuestCurrentDocId := None;
                novelQuestCurrentDocName :=
                  novelQuestCurrentDocName (localStorage s);
                novelQuestCurrentPage :=
                  novelQuestCurrentPage (localStorage s) |} |}
      else s
  end.

(** The session restore (lines 1160-1180), once authentication has
    settled: the stored document replaces the local text and name; the
    page index is not touched. *)
Definition restoreSession (fs : firestore) (s : state) : state :=
  match user s, currentDocId s with
  | Some _, Some id =>
      if truthy id then
        match sources fs !! id with
        | Some data =>
            {| user := user s; text := src_content data;
               currentDocId := currentDocId s;
               currentDocName := or_else (src_name data) (lit "Untitled");
               currentPage := currentPage s;
               lastAiCall := lastAiCall s;
               nextCallAvailable := nextCallAvailable s;
               localStorage := localStorage s |}
        | None => s
        end
      else s
  | _, _ => s
  end.

(** A session load: the initializers read the device store, the user [u]
    signs in, the session restore consults the document store. *)
Definition load (ls : local_store) (u : jsstring) (fs : firestore) : state :=
  persist (restoreSession fs (setUser (Some u) (persist (init ls)))).

(** The page the restore scrolls to at session load, with [elements]
    page elements in the document when its timer fires. *)
Definition restoreTarget (ls : local_store) (u : jsstring) (fs : firestore)
    (elements : nat) : option nat :=
  autoScroll elements (load ls u fs).

(** The events of a reading session; the save effect follows each
    render. *)
Inductive event : Type :=
| Intersect (entries : list entry)
| LoadFromLibrary (id : jsstring) (src : source)
| DeleteFromLibrary (id : jsstring)
| SignIn (u : jsstring).

Definition step (s : state) (e : event) : state :=
  persist
    match e with
    | Intersect entries => onIntersection entries s
    | LoadFromLibrary id src => loadFromLibrary id src s
    | DeleteFromLibrary id => deleteFromLibrary id s
    | SignIn u => setUser (Some u) s
    end.

Definition run (s : state) (es : list event) : state := foldl step s es.

(** *** The rate limiter of [callAi] (lines 975-1003) *)

Inductive ai_outcome : Type :=
| RateLimited (waitSec : Z)   (* "Please wait ${waitSec} seconds ..." *)
| MissingKey                  (* "Error: API key is missing. ..." *)
| NoDocument                  (* "Please load a document before ..." *)
| Request (contextSize maxTokens : nat).   (* the [fetch] is issued *)

(** [callAi] up to the [fetch]: the outcome and the state it leaves.
    [now] is [Date.now()]. *)
Definition callAi (GEMINI_API_KEY : jsstring) (now : Z)
    (isTranslation : bool) (s : state) : ai_outcome * state :=
  let timeSinceLastCall := (now - lastAiCall s)%Z in
  if (timeSinceLastCall <? AI_CALL_DELAY)%Z then
    let waitMs := (AI_CALL_DELAY - timeSinceLastCall)%Z in
    let waitSec := ceil_div waitMs 1000 in
    (RateLimited waitSec,
     {| user := user s; text := text s; currentDocId := currentDocId s;
        currentDocName := currentDocName s; currentPage := currentPage s;
        lastAiCall := lastAiCall s; nextCallAvailable := waitSec;
        localStorage := localStorage s |})
  else if negb (truthy GEMINI_API_KEY) then (MissingKey, s)
  else if blank (text s) then (NoDocument, s)
  else
    (Request (if isTranslation then 200 else 2000)
             (if isTranslation then 1200 else 300),
     {| user := user s; text := text s; currentDocId := currentDocId s;
        currentDocName := currentDocName s; currentPage := currentPage s;
        lastAiCall := now; nextCallAvailable := nextCallAvailable s;
        localStorage := localStorage s |}).

(** Successive invocations at the given times. *)
Fixpoint callAi_all (GEMINI_API_KEY : jsstring) (times : list Z) (s : state)
  : list ai_outcome * state :=
  match times with
  | [] => ([], s)
  | now :: rest =>
      let '(o, s1) := callAi GEMINI_API_KEY now false s in
      let '(os, s2) := callAi_all GEMINI_API_KEY rest s1 in
      (o :: os, s2)
  end.

(** *** [handleFileUpload] (lines 1257-1296)

    [file] is the chosen file (its name and the document [pdf.js] parses
    it to), [newId] the id [addDoc] returns.  The result is the document
    stored and the state; nothing is stored when a guard or the extraction
    fails. *)
Definition handleFileUpload (isPdfLibReady : bool)
    (file : option (jsstring * pdf)) (newId : jsstring) (timestamp : Z)
    (s : state) : option source * state :=
  match user s with
  | None => (None, s)
  | Some _ =>
      if negb isPdfLibReady then (None, s)
      else
        match file with
        | None => (None, s)
        | Some (name, doc) =>
            match extractText PDF_PAGE_CAP doc with
            | None => (None, s)
            | Some fullText =>
                (Some {| src_name := name; src_content := fullText;
                         src_timestamp := timestamp |},
                 {| user := user s; text := fullText;
                    currentDocId := Some newId; currentDocName := name;
                    currentPage := currentPage s;
                    lastAiCall := lastAiCall s;
                    nextCallAvailable := nextCallAvailable s;
                    localStorage := localStorage s |})
            end
        end
  end.

(** [handleSignOut] (lines 1071-1084), once [signOut] has succeeded; the
    document id is removed from local storage, the state [currentDocId]
    is not reset. *)
Definition handleSignOut (s : state) : state :=
  {| user := None; text := []; currentDocId := currentDocId s;
     currentDocName := lit "Untitled Manuscript";
     currentPage := currentPage s;
     lastAiCall := lastAiCall s; nextCallAvailable := nextCallAvailable s;
     localStorage :=
       {| novelQuestText := novelQuestText (localStorage s);
          novelQuestCurrentDocId := None;
          novelQuestCurrentDocName :=
            novelQuestCurrentDocName (localStorage s);
          novelQuestCurrentPage := novelQuestCurrentPage (localStorage s) |} |}.

(** The dependencies of the save effect that the handlers modelled here
    can change: [text, currentDocId, currentDocName, currentPage]. *)
Definition save_deps (s : state)
  : jsstring * option jsstring * jsstring * Z :=
  (text s, currentDocId s, currentDocName s, currentPage s).

(** The render that follows a handler: the save effect runs when one of
    its dependencies differs from the previous render. *)
Definition render (prev next : state) : state :=
  if bool_decide (save_deps next = save_deps prev) then next
  else persist next.

(** The countdown effect (lines 952-958): while [nextCallAvailable] is
    positive an interval of 100 ms is armed, whose callback is
    [prev => Math.max(0, prev - 1)]; [tick] is what one period of 100 ms
    does to the state. *)
Definition tick (s : state) : state :=
  if (nextCallAvailable s <=? 0)%Z then s
  else
    {| user := user s; text := text s; currentDocId := currentDocId s;
       currentDocName := currentDocName s; currentPage := currentPage s;
       lastAiCall := lastAiCall s;
       nextCallAvailable := Z.max 0 (nextCallAvailable s - 1);
       localStorage := localStorage s |}.

(** The text [handleTranslate] sends (lines 1351-1365): [None] when the
    trimmed selection is empty and nothing is sent. *)
Definition textToTranslate (selected : jsstring) : option jsstring :=
  let selection := trim selected in
  if negb (truthy selection) then None
  else if 500 <? length selection
       then Some (substring0 500 selection ++ lit "...")
       else Some selection.

(** *** The chat (lines 1334-1346) *)

Inductive role : Type := RoleUser | RoleBot.

(** What a chat entry holds: the message typed, or what [callAi]
    returned: one of its three refusals, or the answer of the API. *)
Inductive content : Type :=
| Typed (msg : jsstring)
| Refused (o : ai_outcome)
| Answer (reply : jsstring).

Record chat : Type := {
  userInput : jsstring;
  isAiLoading : bool;
  chatHistory : list (role * content)
}.

Definition response_of (o : ai_outcome) (reply : jsstring) : content :=
  match o with
  | Request _ _ => Answer reply
  | _ => Refused o
  end.

(** [handleChat]; [reply] is what the API answers if it is asked. *)
Definition handleChat (GEMINI_API_KEY : jsstring) (now : Z)
    (reply : jsstring) (c : chat) (s : state) : chat * state :=
  if negb (truthy (trim (userInput c))) || isAiLoading c
     || negb (truthy (trim (text s)))
  then (c, s)
  else
    let msg := trim (userInput c) in
    let '(o, s') := callAi GEMINI_API_KEY now false s in
    ({| userInput := [];
        isAiLoading := isAiLoading c;
        chatHistory :=
          chatHistory c ++ [(RoleUser, Typed msg);
                            (RoleBot, response_of o reply)] |}, s').

End App2.

(** ** Third revision: src/unnamed/part_000 *)

Module Part000.

Definition placeholder : jsstring :=
  lit "No manuscript loaded. Use the Library to upload a PDF or start writing.".

Definition pages : jsstring -> list jsstring := getPages placeholder.

Definition PDF_PAGE_CAP : nat := 100.

(** The entries of [localStorage]; [nq_page] holds the number the stored
    string denotes. *)
Record local_store : Type := {
  nq_text : option jsstring;
  nq_doc_id : option jsstring;
  nq_doc_name : option jsstring;
  nq_page : option jsnum
}.

Record state : Type := {
  user : option jsstring;
  text : jsstring;
  currentDocId : option jsstring;
  currentDocName : jsstring;
  currentPage : Z;
  isInitialLoad : bool;      (* the ref [isInitialLoad.current] *)
  localStorage : local_store
}.

(** [Number(localStorage.getItem('nq_page')) || 0]; [Number(null)] is 0. *)
Definition savedPage (ls : local_store) : Z :=
  match nq_page ls with
  | Some n => or_zero n
  | None => 0%Z
  end.

Definition init (ls : local_store) : state :=
  {| user := None;
     text := default [] (nq_text ls);
     currentDocId :=
       match nq_doc_id ls with
       | Some saved => if truthy saved then Some saved else None
       | None => None
       end;
     currentDocName :=
       or_else (default [] (nq_doc_name ls)) (lit "Untitled Manuscript");
     currentPage := savedPage ls;
     isInitialLoad := true;
     localStorage := ls |}.

(** The restore effect (lines 197-206): the index handed to the deferred
    [scrollToPage], if the effect passes its guard. *)
Definition safePage (s : state) : option Z :=
  if (0 <? length (pages (text s))) && isInitialLoad s
  then Some (Z.min (savedPage (localStorage s))
                   (Z.of_nat (length (pages (text s))) - 1))
  else None.

(** The page the restore scrolls to, if any.  The effect arms one timer
    of 800 ms; [elements] is the number of page elements in the document
    when it fires. *)
Definition restoreScroll (elements : nat) (s : state) : option nat :=
  match safePage s with
  | Some index => scrollToPage elements index
  | None => None
  end.

(** The page the restore scrolls to at session load; the text and the
    page index come from local storage, the document store [fs] is not
    read. *)
Definition restoreTarget (ls : local_store) (fs : firestore)
    (elements : nat) : option nat :=
  restoreScroll elements (init ls).

(** [handleFileUpload] (lines 261-284) *)
Definition handleFileUpload (isPdfReady : bool)
    (file : option (jsstring * pdf)) (newId : jsstring) (timestamp : Z)
    (s : state) : option source * state :=
  match file, user s with
  | Some (name, doc), Some _ =>
      if negb isPdfReady then (None, s)
      else
        match extractText PDF_PAGE_CAP doc with
        | None => (None, s)
        | Some fullText =>
            (Some {| src_name := name; src_content := fullText;
                     src_timestamp := timestamp |},
             {| user := user s; text := fullText;
                currentDocId := Some newId; currentDocName := name;
                currentPage := 0%Z;
                isInitialLoad := isInitialLoad s;
                localStorage := localStorage s |})
        end
  | _, _ => (None, s)
  end.

(** The persistence effect (lines 103-110). *)
Definition persist (s : state) : state :=
  {| user := user s; text := text s; currentDocId := currentDocId s;
     currentDocName := currentDocName s; currentPage := currentPage s;
     isInitialLoad := isInitialLoad s;
     localStorage :=
       {| nq_text := Some (text s);
          nq_doc_id := Some (default [] (currentDocId s));
          nq_doc_name := Some (currentDocName s);
          nq_page := Some (Num (currentPage s)) |} |}.

(** The intersection observer (lines 180-194): nothing is recorded while
    the restore is under way. *)
Definition onIntersect (i : nat) (s : state) : state :=
  if isInitialLoad s then s
  else if i <? length (pages (text s)) then
    {| user := user s; text := text s; currentDocId := currentDocId s;
       currentDocName := currentDocName s; currentPage := Z.of_nat i;
       isInitialLoad := false; localStorage := localStorage s |}
  else s.

(** The dependencies of the persistence effect that the handlers
    modelled here can change. *)
Definition save_deps (s : state)
  : jsstring * option jsstring * jsstring * Z :=
  (text s, currentDocId s, currentDocName s, currentPage s).

(** The render that follows a handler: the persistence effect runs when
    one of its dependencies differs from the previous render. *)
Definition render (prev next : state) : state :=
  if bool_decide (save_deps next = save_deps prev) then next
  else persist next.

(** Choosing a document in the library (line 476). *)
Definition selectDocument (e : jsstring * source) (s : state) : state :=
  {| user := user s; text := src_content (snd e);
     currentDocId := Some (fst e); currentDocName := src_name (snd e);
     currentPage := currentPage s; isInitialLoad := true;
     localStorage := localStorage s |}.

(** The deferred callback of the restore effect (lines 201-204): after
    the scroll, the initial load is over. *)
Definition restoreDone (s : state) : state :=
  {| user := user s; text := text s; currentDocId := currentDocId s;
     currentDocName := currentDocName s; currentPage := currentPage s;
     isInitialLoad := false; localStorage := localStorage s |}.

(** A choice in the library up to the end of the restore it may start:
    the state rendered after the choice, the page the restore scrolls
    to, and the state once its callback has run.  [pages] is memoized on
    [text], so the restore effect, which depends on [pages], runs only
    when the text has changed; it follows the persistence effect. *)
Definition openDocument (e : jsstring * source) (s : state)
  : state * option nat * state :=
  let s1 := render s (selectDocument e s) in
  if bool_decide (text s1 = text s) then (s1, None, s1)
  else
    match safePage s1 with
    | Some index =>
        (s1, scrollToPage (length (pages (text s1))) index, restoreDone s1)
    | None => (s1, None, s1)
    end.

(** *** [callAi] and its retries (lines 209-250) *)

(** What one [fetch] comes to: an answer with its text (empty when the
    answer has no candidate text), a response that is not [ok] with its
    status, or a rejected promise. *)
Inductive response : Type :=
| Ok (text : jsstring)
| NotOk (status : nat)
| Rejected.

Definition MAX_RETRIES : nat := 5.

(** [Math.pow(2, retryCount) * 1000] *)
Definition backoff (retryCount : nat) : Z := (2 ^ Z.of_nat retryCount * 1000)%Z.

(** [fetchContent(retryCount)]; [server k] is what the fetch made at
    [retryCount = k] comes to.  The result is the text returned, or
    [None] when the promise is rejected, with the delays waited.  A
    response that is not [ok] is retried at once when its status is 429
    or at least 500, and otherwise throws inside the [try] block, which
    leads to the retry of the [catch] block. *)
Fixpoint fetchContent (fuel : nat) (server : nat -> response)
    (retryCount : nat) : option jsstring * list Z :=
  match fuel with
  | 0 => (None, [])
  | S fuel' =>
      let retry :=
        let '(r, delays) := fetchContent fuel' server (S retryCount) in
        (r, backoff retryCount :: delays) in
      let caught :=
        if retryCount <? MAX_RETRIES then retry else (None, []) in
      match server retryCount with
      | Ok text => (Some (or_else text (lit "No response generated.")), [])
      | NotOk status =>
          if ((status =? 429) || (500 <=? status))
             && (retryCount <? MAX_RETRIES)
          then retry
          else caught
      | Rejected => caught
      end
  end.

(** [callAi]: what it returns and the delays it has waited.  The retry
    counter stops the recursion after six fetches. *)
Definition callAi (server : nat -> response) : jsstring * list Z :=
  let '(r, delays) := fetchContent (S MAX_RETRIES) server 0 in
  (default (lit "AI connection failed.") r, delays).

End Part000.
(** ** Auxiliary notions and sample inputs *)

Definition no_space (w : jsstring) : Prop :=
  Forall (fun c => is_space c = false) w.

(** A word: a non-empty string free of white space. *)
Definition is_word (w : jsstring) : Prop := truthy w = true /\ no_space w.

(** A text of [n] one-letter words, each followed by a space. *)
Definition sample_text (n : nat) : jsstring := concat (replicate n (lit "w ")).

(** A stored document of [n] words. *)
Definition sample_source (n : nat) : source :=
  {| src_name := lit "book.pdf"; src_content := sample_text n;
     src_timestamp := 0 |}.

(** A document store holding the [n]-word document under the id [A] and a
    remote position on page [page] of it. *)
Definition sample_store (n : nat) (page : Z) : firestore :=
  {| sources := {[ lit "A" := sample_source n ]};
     lastPosition := Some {| pos_docId := lit "A";
                             pos_docName := lit "book.pdf";
                             pos_page := page; pos_timestamp := 0 |} |}.

(** The first revision right after the user [u] has signed in: the
    defaults of [useState]. *)
Definition app1_signed_in (u : jsstring) : App1.state :=
  {| App1.user := Some u; App1.text := []; App1.currentDocId := None;
     App1.currentDocName := lit "Untitled Manuscript";
     App1.currentPage := 0; App1.isRestoring := true;
     App1.savedPosition := None |}.

(** A device store of the second revision holding the [n]-word document
    [A] and the page index [page]. *)
Definition sample_local (n : nat) (page : Z) : App2.local_store :=
  {| App2.novelQuestText := Some (sample_text n);
     App2.novelQuestCurrentDocId := Some (lit "A");
     App2.novelQuestCurrentDocName := Some (lit "book.pdf");
     App2.novelQuestCurrentPage := Some (Num page) |}.

(** The device store of a first visit: no entry. *)
Definition empty_local : App2.local_store :=
  {| App2.novelQuestText := None;
     App2.novelQuestCurrentDocId := None;
     App2.novelQuestCurrentDocName := None;
     App2.novelQuestCurrentPage := None |}.

Definition sample_local000 (n : nat) (page : Z) : Part000.local_store :=
  {| Part000.nq_text := Some (sample_text n);
     Part000.nq_doc_id := Some (lit "A");
     Part000.nq_doc_name := Some (lit "book.pdf");
     Part000.nq_page := Some (Num page) |}.

(** The invariant of the auto-save effect: at most one timer is pending;
    it is the one the cleanup of the effect clears, it carries what the
    effect would capture from the rendered state, and it is not yet
    due. *)
Definition autosave_inv (w : App1.world) : Prop :=
  match App1.timers w with
  | [] => True
  | tm :: rest =>
      rest = []
      /\ App1.mounted w = true
      /\ App1.cleanup w = Some (App1.t_id tm)
      /\ App1.autosave_payload (App1.rendered w) = Some (App1.t_payload tm)
      /\ (App1.now w < App1.t_due tm <= App1.now w + App1.AUTOSAVE_DELAY)%Z
  end.

(** The write the auto-save issues for page [p] of document [d]. *)
Definition autosave_write (u d name : jsstring) (p due : Z) : App1.write :=
  {| App1.w_user := u;
     App1.w_position := {| pos_docId := d; pos_docName := name;
                           pos_page := p; pos_timestamp := due |} |}.

(** A reader of the first revision on page [p] of the document [A]. *)
Definition app1_reading (p : Z) : App1.state :=
  {| App1.user := Some (lit "u"); App1.text := sample_text 2000;
     App1.currentDocId := Some (lit "A");
     App1.currentDocName := lit "book.pdf";
     App1.currentPage := p; App1.isRestoring := false;
     App1.savedPosition := None |}.

(** The outcome at a position of a run of invocations is a request. *)
Definition is_request (o : option App2.ai_outcome) : Prop :=
  exists c m, o = Some (App2.Request c m).

(** The fetch came to an answer. *)
Definition is_ok (r : Part000.response) : bool :=
  match r with
  | Part000.Ok _ => true
  | _ => false
  end.

(** * Properties *)

(** ** [split] on white space *)

Example split_leading_run :
  split_ws (lit " a  b") = [lit ""; lit "a"; lit "b"].
Proof. reflexivity. Qed.

Example split_trailing_space :
  split_ws (lit "a b ") = [lit "a"; lit "b"; lit ""].
Proof. reflexivity. Qed.

Example split_empty_string : split_ws (lit "") = [lit ""].
Proof. reflexivity. Qed.

(** Line feed, no-break space and ideographic space separate words. *)
Example words_unicode_spaces :
  words (lit "one" ++ [10; 160]%N ++ lit "two" ++ [12288%N] ++ lit "three")
  = [lit "one"; lit "two"; lit "three"].
Proof. reflexivity. Qed.

Example join_three : join SPACE [lit "a"; lit "b"; lit "c"] = lit "a b c".
Proof. reflexivity. Qed.

Example getPages_small :
  App1.getPages (lit "  one two" ++ [10%N] ++ lit "three ")
  = [lit "one two three"].
Proof. vm_compute. reflexivity. Qed.

(** ** The paginator *)

Lemma words_tokens_from s : forall piece in_sep,
  (in_sep = true -> piece = []) ->
  List.filter truthy (split_ws_from piece in_sep s) = tokens_from piece s.
Proof.
  induction s as [|c s IH]; intros piece in_sep Hsep; simpl.
  - reflexivity.
  - destruct (is_space c).
    + destruct in_sep.
      * rewrite (Hsep eq_refl). simpl. now apply IH.
      * simpl. rewrite (IH [] true) by reflexivity. reflexivity.
    + now apply IH.
Qed.

Lemma words_tokenize text : words text = tokenize text.
Proof. unfold words, split_ws, tokenize. now apply words_tokens_from. Qed.

Lemma tokens_from_words s : forall cur,
  no_space cur -> Forall is_word (tokens_from cur s).
Proof.
  unfold is_word.
  induction s as [|c s IH]; intros cur Hcur; simpl.
  - destruct (truthy cur) eqn:E; repeat constructor; assumption.
  - destruct (is_space c) eqn:Ec.
    + destruct (truthy cur) eqn:E.
      * constructor; [split; assumption|]. apply IH. constructor.
      * apply IH. constructor.
    + apply IH. apply Forall_app. split; [assumption|].
      constructor; [assumption|constructor].
Qed.

Lemma words_are_words text : Forall is_word (words text).
Proof.
  rewrite words_tokenize. apply tokens_from_words. constructor.
Qed.

Lemma tokens_from_skip w : forall cur rest,
  no_space w -> tokens_from cur (w ++ rest) = tokens_from (cur ++ w) rest.
Proof.
  induction w as [|c w IH]; intros cur rest Hw; simpl.
  - now rewrite app_nil_r.
  - inversion Hw as [|? ? Hc Hw']; subst. rewrite Hc.
    rewrite IH by assumption. now rewrite <- app_assoc.
Qed.

Lemma tokenize_join g : Forall is_word g -> tokenize (join SPACE g) = g.
Proof.
  unfold tokenize.
  induction g as [|w g IH]; intros Hg; [reflexivity|].
  inversion Hg as [|? ? [Hw1 Hw2] Hg']; subst.
  destruct g as [|w2 g].
  - simpl. rewrite <- (app_nil_r w) at 1.
    rewrite tokens_from_skip by assumption. simpl. now rewrite Hw1.
  - change (join SPACE (w :: w2 :: g))
      with (w ++ 32%N :: join SPACE (w2 :: g)).
    rewrite tokens_from_skip by assumption. simpl tokens_from at 1.
    change (is_space 32) with true. cbv iota. rewrite Hw1.
    f_equal. now apply IH.
Qed.

Lemma chunked_concat_nonempty {A} n (groups : list (list A)) :
  0 < n -> chunked n groups -> groups <> [] -> concat groups <> [].
Proof.
  intros Hn Hc Hne. destruct groups as [|g rest]; [congruence|].
  simpl in *. destruct g as [|x g]; [|discriminate].
  destruct rest; simpl in Hc; lia.
Qed.

Lemma getPages_loop_groups ws : forall fuel i result,
  length ws - i <= fuel ->
  exists groups,
    getPages_loop fuel i ws result = result ++ map (join SPACE) groups
    /\ concat groups = drop i ws
    /\ chunked WORDS_PER_PAGE groups.
Proof.
  induction fuel as [|fuel IH]; intros i result Hfuel; simpl.
  - exists []. simpl. rewrite app_nil_r, drop_ge by lia. auto.
  - destruct (Nat.ltb_spec i (length ws)) as [Hlt|Hge].
    + destruct (IH (i + WORDS_PER_PAGE)
                  (result ++ [join SPACE (slice i (i + WORDS_PER_PAGE) ws)]))
        as (groups & Hloop & Hcat & Hch).
      { unfold WORDS_PER_PAGE. lia. }
      exists (slice i (i + WORDS_PER_PAGE) ws :: groups).
      assert (Hslice : slice i (i + WORDS_PER_PAGE) ws
                       = take WORDS_PER_PAGE (drop i ws)).
      { unfold slice. f_equal. lia. }
      split; [|split].
      * rewrite Hloop, <- app_assoc. reflexivity.
      * simpl. rewrite Hcat, Hslice, <- drop_drop. apply take_drop.
      * destruct groups as [|g groups].
        -- simpl. rewrite Hslice, length_take, length_drop.
           unfold WORDS_PER_PAGE. lia.
        -- change (length (slice i (i + WORDS_PER_PAGE) ws) = WORDS_PER_PAGE
                   /\ chunked WORDS_PER_PAGE (g :: groups)).
           split; [|assumption].
           assert (Hne : drop (i + WORDS_PER_PAGE) ws <> []).
           { rewrite <- Hcat.
             apply (chunked_concat_nonempty WORDS_PER_PAGE);
               [unfold WORDS_PER_PAGE; lia|assumption|discriminate]. }
           assert (i + WORDS_PER_PAGE < length ws).
           { destruct (Nat.lt_ge_cases (i + WORDS_PER_PAGE) (length ws));
               [assumption|]. now rewrite drop_ge in Hne by assumption. }
           rewrite Hslice, length_take, length_drop. lia.
    + exists []. simpl. rewrite app_nil_r, drop_ge by lia. auto.
Qed.

(** With at least one word, [getPages] returns the pages of the loop. *)
Lemma getPages_groups ph text :
  words text <> [] ->
  exists groups,
    getPages ph text = map (join SPACE) groups
    /\ concat groups = words text
    /\ chunked WORDS_PER_PAGE groups.
Proof.
  intros Hne. unfold getPages. cbv zeta.
  destruct (getPages_loop_groups (words text) (length (words text)) 0 [])
    as (groups & Hloop & Hcat & Hch); [lia|].
  rewrite drop_0 in Hcat. simpl in Hloop. rewrite Hloop.
  exists groups. split; [|auto].
  destruct groups as [|g groups]; [simpl in Hcat; congruence|reflexivity].
Qed.

Lemma getPages_no_words ph text : words text = [] -> getPages ph text = [ph].
Proof. intros H. unfold getPages. rewrite H. reflexivity. Qed.

(** [getPages] returns at least one page. *)
Lemma getPages_length_pos ph text : 0 < length (getPages ph text).
Proof.
  destruct (words text) as [|w ws] eqn:E.
  - rewrite getPages_no_words by assumption. simpl. lia.
  - destruct (getPages_groups ph text) as (groups & -> & Hcat & _);
      [congruence|].
    destruct groups; [simpl in Hcat; congruence|simpl; lia].
Qed.

Lemma concat_words_in (groups : list (list jsstring)) ws :
  concat groups = ws -> Forall is_word ws -> Forall (Forall is_word) groups.
Proof.
  intros <-. induction groups as [|g groups IH]; simpl; intros H.
  - constructor.
  - apply Forall_app in H as [Hg Hrest]. constructor; auto.
Qed.

Lemma concat_tokenize_join groups :
  Forall (Forall is_word) groups ->
  concat (map tokenize (map (join SPACE) groups)) = concat groups.
Proof.
  induction 1 as [|g groups Hg _ IH]; simpl; [reflexivity|].
  now rewrite tokenize_join, IH.
Qed.

Lemma blank_tokens s : blank s = true -> tokens_from [] s = [].
Proof.
  unfold blank. induction s as [|c s IH]; simpl; [reflexivity|].
  intros H. apply andb_prop in H as [Hc Hs]. rewrite Hc. simpl. auto.
Qed.

Lemma chunked_700 (groups : list (list jsstring)) :
  chunked 275 groups -> length (concat groups) = 700 ->
  map length groups = [275; 275; 150].
Proof.
  intros Hc Hlen.
  destruct groups as [|g1 [|g2 [|g3 [|g4 rest]]]]; simpl in *;
    repeat rewrite ?length_app, ?app_nil_r in Hlen; simpl in Hlen;
    try lia.
  destruct Hc as (H1 & H2 & H3). repeat f_equal; lia.
Qed.

(** C1, as amended: for every text with at least one word, the words of
    the pages of [getPages], taken in order, are exactly the words of the
    text (the tokens between runs of white space, empty tokens
    discarded). *)
Theorem pages_reconstruct_words (ph text : jsstring) :
  tokenize text <> [] ->
  concat (map tokenize (getPages ph text)) = tokenize text.
Proof.
  intros Hne. rewrite <- words_tokenize in Hne.
  destruct (getPages_groups ph text Hne) as (groups & Hpages & Hcat & _).
  rewrite Hpages, concat_tokenize_join, Hcat; [apply words_tokenize|].
  eapply concat_words_in; [exact Hcat|apply words_are_words].
Qed.

(** A text of two words, with a run of spaces and a trailing space. *)
Lemma pages_reconstruct_words_witness :
  tokenize (lit "one  two ") <> []
  /\ concat (map tokenize (App1.getPages (lit "one  two ")))
     = tokenize (lit "one  two ").
Proof.
  split; [discriminate|].
  apply (pages_reconstruct_words App1.placeholder (lit "one  two ")).
  discriminate.
Defined.

(** C1 as stated fails on the empty text: its only page is the
    placeholder, whose words are not words of the text. *)
Lemma pages_of_empty_text_not_its_words :
  concat (map tokenize (App1.getPages (lit ""))) <> tokenize (lit "").
Proof. vm_compute. discriminate. Qed.

(** C2: with at least one word, [getPages] cuts the word sequence into
    consecutive groups of exactly [WORDS_PER_PAGE] words, the last one
    possibly shorter, and each page is its group joined with single
    spaces; a text of 700 words gives three pages of 275, 275 and 150
    words. *)
Theorem getPages_partition (ph text : jsstring) :
  words text <> [] ->
  (exists groups : list (list jsstring),
      concat groups = words text
      /\ chunked WORDS_PER_PAGE groups
      /\ getPages ph text = map (join SPACE) groups)
  /\ (length (words text) = 700 ->
      map (fun p => length (words p)) (getPages ph text) = [275; 275; 150]).
Proof.
  intros Hne.
  destruct (getPages_groups ph text Hne) as (groups & Hpages & Hcat & Hch).
  split; [exists groups; auto|].
  intros H700. rewrite Hpages.
  assert (Hw : Forall (Forall is_word) groups).
  { eapply concat_words_in; [exact Hcat|apply words_are_words]. }
  rewrite <- (chunked_700 groups Hch) by (now rewrite Hcat).
  clear -Hw. induction Hw as [|g groups Hg _ IH]; simpl; [reflexivity|].
  now rewrite words_tokenize, tokenize_join, IH.
Qed.

(** A text of 700 words: three pages of 275, 275 and 150 words. *)
Lemma getPages_partition_witness :
  words (sample_text 700) <> []
  /\ length (App1.getPages (sample_text 700)) = 3
  /\ map (fun p => length (words p)) (App1.getPages (sample_text 700))
     = [275; 275; 150].
Proof.
  assert (Hne : words (sample_text 700) <> []) by (vm_compute; discriminate).
  assert (H700 : length (words (sample_text 700)) = 700)
    by (vm_compute; reflexivity).
  pose proof (getPages_partition App1.placeholder (sample_text 700) Hne)
    as [_ Hsizes].
  specialize (Hsizes H700).
  split; [exact Hne|]. split; [|exact Hsizes].
  apply (f_equal (@length nat)) in Hsizes.
  now rewrite length_map in Hsizes.
Defined.

(** C3: [getPages] never returns an empty array, and a text without words
    (empty, or white space only) gives the single placeholder page. *)
Theorem getPages_never_empty (ph text : jsstring) :
  getPages ph text <> []
  /\ (words text = [] -> getPages ph text = [ph])
  /\ (blank text = true -> getPages ph text = [ph]).
Proof.
  assert (Hnone : words text = [] -> getPages ph text = [ph])
    by apply getPages_no_words.
  split; [|split; [assumption|]].
  - pose proof (getPages_length_pos ph text) as Hpos.
    destruct (getPages ph text); [simpl in Hpos; lia|discriminate].
  - intros Hb. apply Hnone. rewrite words_tokenize. now apply blank_tokens.
Qed.

(** A text of white space only, and the empty text. *)
Lemma getPages_never_empty_witness :
  blank [32%N; 10%N; 9%N] = true
  /\ App2.getPages [32%N; 10%N; 9%N] = [App2.placeholder]
  /\ Part000.pages (lit "") = [Part000.placeholder].
Proof.
  split; [reflexivity|]. split.
  - apply (getPages_never_empty App2.placeholder [32%N; 10%N; 9%N]).
    reflexivity.
  - apply (getPages_never_empty Part000.placeholder (lit "")). reflexivity.
Defined.

(** ** Restoring the reading position *)

Lemma scrollToPage_last n saved :
  0 < n -> (Z.of_nat n <= saved)%Z ->
  scrollToPage n (Z.min saved (Z.of_nat n - 1)) = Some (n - 1).
Proof.
  intros Hn Hsaved. unfold scrollToPage.
  rewrite Z.min_r by lia.
  replace ((0 <=? Z.of_nat n - 1)%Z && (Z.of_nat n - 1 <? Z.of_nat n)%Z)
    with true by (symmetry; apply andb_true_intro; split; lia).
  f_equal. lia.
Qed.


Lemma scrollToPage_no_element index : scrollToPage 0 index = None.
Proof.
  unfold scrollToPage.
  destruct (Z.leb_spec 0 index), (Z.ltb_spec index (Z.of_nat 0)); simpl;
    try reflexivity; lia.
Qed.

Lemma scrollToPage_in_range n index :
  (0 <= index < Z.of_nat n)%Z -> scrollToPage n index = Some (Z.to_nat index).
Proof.
  intros H. unfold scrollToPage.
  replace ((0 <=? index)%Z && (index <? Z.of_nat n)%Z) with true
    by (symmetry; apply andb_true_intro; split; lia).
  reflexivity.
Qed.




(** ** Which saved position a session load restores *)






(** ** The range of the page index *)

Lemma app2_pages_length_pos s : 0 < length (App2.pages s).
Proof. apply getPages_length_pos. Qed.

Lemma app2_observed_range shown s idx :
  In (Num idx) (App2.observed shown s) ->
  (0 <= idx < Z.of_nat (length (App2.pages s)))%Z.
Proof.
  unfold App2.observed. intros Hin.
  apply in_map_iff in Hin. destruct Hin as (i & Heq & Hi).
  apply in_seq in Hi. injection Heq as <-.
  assert (pageElements shown (length (App2.pages s)) <= length (App2.pages s))
    by (unfold pageElements; destruct shown; lia).
  lia.
Qed.

Lemma app2_onEntry_range shown s0 e s :
  App2.pages s = App2.pages s0 ->
  In (App2.pageIndexAttr e) (App2.observed shown s0) ->
  App2.pages (App2.onEntry e s) = App2.pages s0
  /\ (App2.currentPage (App2.onEntry e s) = App2.currentPage s
      \/ (0 <= App2.currentPage (App2.onEntry e s)
          < Z.of_nat (length (App2.pages s0)))%Z).
Proof.
  intros Hpages Hin. unfold App2.onEntry.
  destruct (App2.isIntersecting e); [|now split; [|left]].
  destruct (App2.pageIndexAttr e) as [|idx]; [now split; [|left]|].
  split; [exact Hpages|]. right. simpl.
  now apply app2_observed_range with shown.
Qed.

Lemma app2_onIntersection_range shown s0 entries : forall s,
  App2.pages s = App2.pages s0 ->
  Forall (fun e => In (App2.pageIndexAttr e) (App2.observed shown s0))
         entries ->
  App2.pages (App2.onIntersection entries s) = App2.pages s0
  /\ (App2.currentPage (App2.onIntersection entries s) = App2.currentPage s
      \/ (0 <= App2.currentPage (App2.onIntersection entries s)
          < Z.of_nat (length (App2.pages s0)))%Z).
Proof.
  induction entries as [|e entries IH]; intros s Hpages Hall.
  - split; [exact Hpages|now left].
  - apply Forall_cons_1 in Hall. destruct Hall as [He Hall].
    destruct (app2_onEntry_range shown s0 e s Hpages He) as [Hp Hc].
    destruct (IH (App2.onEntry e s) Hp Hall) as [Hp' Hc'].
    change (App2.onIntersection (e :: entries) s)
      with (App2.onIntersection entries (App2.onEntry e s)).
    split; [exact Hp'|].
    destruct Hc' as [Heq|Hin]; [|now right].
    rewrite Heq. exact Hc.
Qed.

(** C8, as amended: the callback of the intersection observer stores the
    index parsed from the entry's attribute without comparing it with the
    page count; the entries of the page elements the observer is attached
    to carry indices within [0, pageCount - 1], so the stored index is
    unchanged or in that range after a callback on them.  The index the
    auto-scroll hands to [scrollToPage] lies within [0, pageCount - 1]
    whenever the stored index is not negative, and the scroll reaches it
    when the page elements are rendered as its timer fires.  Deleting the
    current document clears the text and the document id and keeps the
    page index, in the state and in local storage; the local-storage id
    is rewritten as the empty string, which the next session reads as no
    document; an auto-scroll after the deletion asks for the placeholder
    page. *)
Theorem page_index_range (s : App2.state) :
  (forall idx,
      App2.currentPage
        (App2.onIntersection
           [{| App2.isIntersecting := true; App2.pageIndexAttr := Num idx |}]
           s) = idx)
  /\ (forall shown entries,
      Forall (fun e => In (App2.pageIndexAttr e) (App2.observed shown s))
             entries ->
      let s' := App2.onIntersection entries s in
      App2.pages s' = App2.pages s
      /\ (App2.currentPage s' = App2.currentPage s
          \/ (0 <= App2.currentPage s'
              < Z.of_nat (length (App2.pages s)))%Z))
  /\ ((0 <= App2.currentPage s)%Z ->
      (0 <= App2.safeIndex s < Z.of_nat (length (App2.pages s)))%Z
      /\ App2.autoScroll (pageElements true (length (App2.pages s))) s
         = Some (Z.to_nat (App2.safeIndex s))
      /\ App2.autoScroll (pageElements false (length (App2.pages s))) s
         = None)
  /\ (forall u id,
      App2.user s = Some u -> App2.currentDocId s = Some id ->
      let s' := App2.step s (App2.DeleteFromLibrary id) in
      App2.currentDocId s' = None
      /\ App2.text s' = []
      /\ App2.pages s' = [App2.placeholder]
      /\ App2.currentPage s' = App2.currentPage s
      /\ App2.novelQuestCurrentPage (App2.localStorage s')
         = Some (Num (App2.currentPage s))
      /\ App2.novelQuestCurrentDocId (App2.localStorage s') = Some []
      /\ App2.currentDocId (App2.init (App2.localStorage s')) = None
      /\ App2.currentPage (App2.init (App2.localStorage s'))
         = App2.currentPage s
      /\ ((0 <= App2.currentPage s)%Z ->
          App2.safeIndex s' = 0%Z
          /\ App2.autoScroll (pageElements true (length (App2.pages s'))) s'
             = Some 0
          /\ App2.autoScroll (pageElements false (length (App2.pages s'))) s'
             = None)).
Proof.
  split; [|split; [|split]].
  - intros idx. reflexivity.
  - intros shown entries Hall. cbv zeta.
    now apply app2_onIntersection_range with shown.
  - intros Hpage. pose proof (app2_pages_length_pos s) as Hpos.
    assert (Hsafe : (0 <= App2.safeIndex s
                     < Z.of_nat (length (App2.pages s)))%Z)
      by (unfold App2.safeIndex; lia).
    split; [exact Hsafe|].
    unfold App2.autoScroll.
    destruct (Nat.eqb_spec (length (App2.pages s)) 0) as [Hz|Hnz]; [lia|].
    split.
    + now apply scrollToPage_in_range.
    + apply scrollToPage_no_element.
  - intros u id Hu Hid. unfold App2.step, App2.deleteFromLibrary.
    rewrite Hu, Hid.
    rewrite bool_decide_eq_true_2 by reflexivity.
    cbv zeta. set (s' := App2.persist _).
    do 8 (split; [reflexivity|]). intros Hpage.
    assert (Hlen : length (App2.pages s') = 1) by reflexivity.
    assert (Hsafe : App2.safeIndex s' = 0%Z).
    { unfold App2.safeIndex. rewrite Hlen.
      change (App2.currentPage s') with (App2.currentPage s). lia. }
    split; [exact Hsafe|].
    unfold App2.autoScroll. rewrite Hsafe, Hlen. split; reflexivity.
Qed.

(** In a two-page document the entry of page 1 stores index 1; with the
    stored index 1 the auto-scroll reaches page 1 when the reader is
    rendered; and deleting the document while on page 1 leaves the empty
    string as the stored id and makes an auto-scroll ask for page 0. *)
Lemma page_index_range_witness :
  let entry1 :=
    {| App2.isIntersecting := true; App2.pageIndexAttr := Num 1 |} in
  let s0 := App2.setUser (Some (lit "u")) (App2.init (sample_local 276 0)) in
  let s1 := App2.setUser (Some (lit "u")) (App2.init (sample_local 276 1)) in
  let s2 := App2.step s1 (App2.DeleteFromLibrary (lit "A")) in
  App2.currentPage (App2.onIntersection [entry1] s0) = 1%Z
  /\ (App2.currentPage (App2.onIntersection [entry1] s0) = 0%Z
      \/ (0 <= App2.currentPage (App2.onIntersection [entry1] s0) < 2)%Z)
  /\ App2.autoScroll (pageElements true 2) s1 = Some 1
  /\ App2.novelQuestCurrentDocId (App2.localStorage s2) = Some []
  /\ App2.autoScroll (pageElements true 1) s2 = Some 0.
Proof.
  cbv zeta.
  set (entry1 := {| App2.isIntersecting := true;
                    App2.pageIndexAttr := Num 1 |}).
  set (s0 := App2.setUser (Some (lit "u")) (App2.init (sample_local 276 0))).
  set (s1 := App2.setUser (Some (lit "u")) (App2.init (sample_local 276 1))).
  destruct (page_index_range s0) as (H1 & H2 & _).
  destruct (page_index_range s1) as (_ & _ & H3 & H4).
  assert (Hobs : Forall (fun e => In (App2.pageIndexAttr e)
                                    (App2.observed true s0)) [entry1]).
  { constructor; [|constructor]. vm_compute. right. now left. }
  assert (Hpage : (0 <= App2.currentPage s1)%Z) by (vm_compute; discriminate).
  split; [exact (H1 1%Z)|].
  split; [exact (proj2 (H2 true [entry1] Hobs))|].
  split; [exact (proj1 (proj2 (H3 Hpage)))|].
  destruct (H4 (lit "u") (lit "A") eq_refl eq_refl)
    as (_ & _ & _ & _ & _ & Hid & _ & _ & Hscroll).
  split; [exact Hid|].
  exact (proj1 (proj2 (Hscroll Hpage))).
Defined.

(** C8 as stated fails: after reading page 1 of a two-page document and
    deleting that document, the page index is still 1, in the state and in
    local storage, while the only page left is the placeholder. *)
Lemma page_index_out_of_range_after_delete :
  let s := App2.run (App2.persist (App2.init empty_local))
             [App2.SignIn (lit "u");
              App2.LoadFromLibrary (lit "A") (sample_source 276);
              App2.Intersect
                [{| App2.isIntersecting := true;
                    App2.pageIndexAttr := Num 1 |}];
              App2.DeleteFromLibrary (lit "A")] in
  length (App2.pages s) = 1
  /\ App2.currentPage s = 1%Z
  /\ App2.novelQuestCurrentPage (App2.localStorage s) = Some (Num 1)
  /\ ~ (0 <= App2.currentPage s <= Z.of_nat (length (App2.pages s)) - 1)%Z.
Proof.
  cbv zeta.
  set (s := App2.run _ _).
  assert (Hlen : length (App2.pages s) = 1) by (vm_compute; reflexivity).
  assert (Hpage : App2.currentPage s = 1%Z) by (vm_compute; reflexivity).
  split; [exact Hlen|]. split; [exact Hpage|].
  split; [vm_compute; reflexivity|].
  rewrite Hlen, Hpage. lia.
Qed.

(** ** The rate limiter *)

(** C9, as amended: [callAi] measures the time since the last invocation
    that reached the API ([lastAiCall]), not since the last invocation.
    Less than [AI_CALL_DELAY] after it, no request is made, the wait
    message is returned and [lastAiCall] stays; from [AI_CALL_DELAY] on,
    the request is made when the API key is set and a document is loaded,
    and [lastAiCall] becomes the time of the invocation.  A request is
    never made less than [AI_CALL_DELAY] after [lastAiCall]. *)
Theorem callAi_rate_limit (key : jsstring) (now : Z) (tr : bool)
    (s : App2.state) :
  ((now - App2.lastAiCall s < App2.AI_CALL_DELAY)%Z ->
      fst (App2.callAi key now tr s)
      = App2.RateLimited
          (ceil_div (App2.AI_CALL_DELAY - (now - App2.lastAiCall s)) 1000)
      /\ App2.lastAiCall (snd (App2.callAi key now tr s)) = App2.lastAiCall s)
  /\ ((App2.AI_CALL_DELAY <= now - App2.lastAiCall s)%Z ->
      truthy key = true -> blank (App2.text s) = false ->
      (exists c m, fst (App2.callAi key now tr s) = App2.Request c m)
      /\ App2.lastAiCall (snd (App2.callAi key now tr s)) = now)
  /\ (forall c m, fst (App2.callAi key now tr s) = App2.Request c m ->
      (App2.AI_CALL_DELAY <= now - App2.lastAiCall s)%Z).
Proof.
  unfold App2.callAi. cbv zeta.
  destruct (Z.ltb_spec (now - App2.lastAiCall s) App2.AI_CALL_DELAY)
    as [Hlt|Hge].
  - split; [|split].
    + intros _. split; reflexivity.
    + intros H. lia.
    + intros c m H. discriminate.
  - split; [|split].
    + intros H. lia.
    + intros _ Hkey Hblank. rewrite Hkey, Hblank. simpl.
      split; [eauto|reflexivity].
    + intros _ _ _. exact Hge.
Qed.

(** A request at 10000 ms, then an invocation one second later: one
    second of waiting is announced. *)
Lemma callAi_rate_limit_witness :
  fst (App2.callAi (lit "k") 11000 false
         (snd (App2.callAi (lit "k") 10000 false
                 (App2.init (sample_local 3 0)))))
  = App2.RateLimited 1.
Proof.
  destruct (callAi_rate_limit (lit "k") 10000 false
              (App2.init (sample_local 3 0))) as (_ & H & _).
  destruct H as [_ Hlast]; [vm_compute; discriminate|reflexivity|reflexivity|].
  destruct (callAi_rate_limit (lit "k") 11000 false
              (snd (App2.callAi (lit "k") 10000 false
                      (App2.init (sample_local 3 0))))) as (H & _ & _).
  rewrite Hlast in H. destruct H as [H _]; [vm_compute; reflexivity|].
  exact H.
Defined.

(** C9 as stated fails: of three invocations at 10000, 11000 and 11600 ms
    the third comes 600 ms after the second, and yet its request is
    made. *)
Lemma request_soon_after_refused_call :
  (11600 - 11000 < App2.AI_CALL_DELAY)%Z
  /\ fst (App2.callAi_all (lit "k") [10000; 11000; 11600]%Z
            (App2.init (sample_local 3 0)))
     = [App2.Request 2000 300; App2.RateLimited 1; App2.Request 2000 300].
Proof. split; [reflexivity|vm_compute; reflexivity]. Qed.

(** ** The page cap of the PDF upload *)

Lemma extract_loop_seq (doc : pdf) : forall m k acc,
  k + m <= length doc ->
  extract_loop doc (seq (S k) m) acc
  = Some (acc ++ concat (map pageText (take m (drop k doc)))).
Proof.
  induction m as [|m IH]; intros k acc Hk; simpl.
  - now rewrite app_nil_r.
  - destruct (lookup_lt_is_Some_2 doc k) as [items Hitems]; [lia|].
    rewrite Hitems, (drop_S _ _ _ Hitems). simpl.
    rewrite IH by lia. now rewrite <- app_assoc.
Qed.

Lemma extractText_take cap (doc : pdf) :
  extractText cap doc = Some (concat (map pageText (take cap doc))).
Proof.
  unfold extractText, numPages.
  rewrite extract_loop_seq by lia. rewrite drop_0. simpl.
  destruct (Nat.le_ge_cases cap (length doc)).
  - now rewrite Nat.min_r.
  - rewrite Nat.min_l, !take_ge by lia. reflexivity.
Qed.

(** C10: the upload stores the text of the first 50 pages of the PDF (the
    first 100 in part_000) and nothing of the pages after them; the upload
    succeeds all the same. *)
Theorem upload_page_cap (name : jsstring) (doc : pdf) (id : jsstring) (ts : Z) :
  (forall s u, App2.user s = Some u ->
      let '(stored, s') :=
        App2.handleFileUpload true (Some (name, doc)) id ts s in
      option_map src_content stored
      = Some (concat (map pageText (take 50 doc)))
      /\ App2.text s' = concat (map pageText (take 50 doc)))
  /\ (forall s u, Part000.user s = Some u ->
      let '(stored, s') :=
        Part000.handleFileUpload true (Some (name, doc)) id ts s in
      option_map src_content stored
      = Some (concat (map pageText (take 100 doc)))
      /\ Part000.text s' = concat (map pageText (take 100 doc)))
  /\ (forall beyond,
      50 <= length doc ->
      extractText App2.PDF_PAGE_CAP (doc ++ beyond)
      = extractText App2.PDF_PAGE_CAP doc)
  /\ (forall beyond,
      100 <= length doc ->
      extractText Part000.PDF_PAGE_CAP (doc ++ beyond)
      = extractText Part000.PDF_PAGE_CAP doc).
Proof.
  split; [|split; [|split]].
  - intros s u Hu. unfold App2.handleFileUpload. rewrite Hu. simpl.
    rewrite extractText_take. split; reflexivity.
  - intros s u Hu. unfold Part000.handleFileUpload. rewrite Hu. simpl.
    rewrite extractText_take. split; reflexivity.
  - intros beyond Hlen. rewrite !extractText_take.
    unfold App2.PDF_PAGE_CAP. now rewrite take_app_le by lia.
  - intros beyond Hlen. rewrite !extractText_take.
    unfold Part000.PDF_PAGE_CAP. now rewrite take_app_le by lia.
Qed.

(** A PDF of 51 pages: the text of 50 pages is stored. *)
Lemma upload_page_cap_witness :
  option_map src_content
    (fst (App2.handleFileUpload true
            (Some (lit "a.pdf", replicate 51 [lit "x"; lit "y"]))
            (lit "A") 0
            (App2.setUser (Some (lit "u")) (App2.init empty_local))))
  = Some (concat (replicate 50 (lit "x y" ++ [10%N]))).
Proof.
  destruct (upload_page_cap (lit "a.pdf") (replicate 51 [lit "x"; lit "y"])
              (lit "A") 0) as (H & _).
  specialize (H (App2.setUser (Some (lit "u")) (App2.init empty_local))
                (lit "u") eq_refl).
  destruct (App2.handleFileUpload _ _ _ _ _) as [stored s'].
  destruct H as [H _]. simpl fst. rewrite H. reflexivity.
Defined.

(** ** The debounced remote write of the first revision *)

Lemma autosave_payload_deps s s' :
  App1.deps s = App1.deps s' ->
  App1.autosave_payload s = App1.autosave_payload s'.
Proof.
  unfold App1.deps, App1.autosave_payload. intros [= -> -> -> -> ->].
  reflexivity.
Qed.

Lemma run_cleanup_timers w :
  autosave_inv w -> App1.timers (App1.run_cleanup w) = [].
Proof.
  unfold autosave_inv, App1.run_cleanup. intros Hinv.
  destruct (App1.timers w) as [|tm rest] eqn:Htimers.
  - destruct (App1.cleanup w); simpl; [reflexivity|exact Htimers].
  - destruct Hinv as (-> & _ & -> & _). simpl.
    now rewrite Nat.eqb_refl.
Qed.

Lemma run_cleanup_fields w :
  App1.now (App1.run_cleanup w) = App1.now w
  /\ App1.mounted (App1.run_cleanup w) = App1.mounted w
  /\ App1.remote (App1.run_cleanup w) = App1.remote w
  /\ App1.next_timer (App1.run_cleanup w) = App1.next_timer w.
Proof. unfold App1.run_cleanup. destruct (App1.cleanup w); simpl; auto. Qed.

Lemma run_effect_inv s w :
  App1.timers w = [] -> App1.mounted w = true ->
  autosave_inv (App1.run_effect s w).
Proof.
  intros Ht Hm. unfold autosave_inv, App1.run_effect.
  destruct (App1.autosave_payload s) as [p|] eqn:Hp; simpl; rewrite Ht; simpl.
  - unfold App1.AUTOSAVE_DELAY. repeat split; auto; lia.
  - exact I.
Qed.

Lemma autosave_inv_step w e : autosave_inv w -> autosave_inv (App1.step w e).
Proof.
  intros Hinv. destruct e as [t|s|]; simpl.
  - unfold autosave_inv in *. simpl.
    destruct (App1.timers w) as [|tm rest]; [exact I|].
    destruct Hinv as (-> & Hm & Hc & Hp & Hdue). simpl.
    unfold App1.is_due. destruct (Z.leb_spec (App1.t_due tm)
                                   (Z.max (App1.now w) t)); simpl.
    + exact I.
    + repeat split; auto; lia.
  - destruct (App1.mounted w) eqn:Hm; simpl; [|assumption].
    destruct (bool_decide (App1.deps s = App1.deps (App1.rendered w))) eqn:Hd.
    + apply bool_decide_eq_true_1 in Hd.
      unfold autosave_inv in *. simpl.
      destruct (App1.timers w) as [|tm rest]; [exact I|].
      rewrite (autosave_payload_deps _ _ Hd).
      destruct Hinv as (Hrest & _ & Hrest'). auto.
    + apply run_effect_inv.
      * now apply run_cleanup_timers.
      * destruct (run_cleanup_fields w) as (_ & -> & _). exact Hm.
  - destruct (App1.mounted w) eqn:Hm; simpl; [|assumption].
    unfold autosave_inv. simpl. now rewrite run_cleanup_timers.
Qed.

Lemma reachable_inv w : App1.reachable w -> autosave_inv w.
Proof.
  induction 1 as [t0 s|w e _ IH].
  - now apply run_effect_inv.
  - now apply autosave_inv_step.
Qed.

Lemma unmounted_no_timers w :
  autosave_inv w -> App1.mounted w = false -> App1.timers w = [].
Proof.
  unfold autosave_inv. destruct (App1.timers w); [reflexivity|].
  intros (_ & Hm & _) Hf. congruence.
Qed.

(** What the clock adds to the log of remote writes when it moves on. *)
Lemma elapse_remote w t :
  App1.remote (App1.step w (App1.Elapse t))
  = App1.remote w
    ++ map App1.fire
         (List.filter (App1.is_due (Z.max (App1.now w) t)) (App1.timers w)).
Proof. reflexivity. Qed.

Lemma elapse_single w tm T :
  App1.timers w = [tm] ->
  ((Z.max (App1.now w) T < App1.t_due tm)%Z ->
      App1.remote (App1.step w (App1.Elapse T)) = App1.remote w
      /\ App1.timers (App1.step w (App1.Elapse T)) = [tm])
  /\ ((App1.t_due tm <= Z.max (App1.now w) T)%Z ->
      App1.remote (App1.step w (App1.Elapse T))
      = App1.remote w ++ [App1.fire tm]
      /\ App1.timers (App1.step w (App1.Elapse T)) = []).
Proof.
  intros Ht. simpl. rewrite Ht. simpl. unfold App1.is_due.
  destruct (Z.leb_spec (App1.t_due tm) (Z.max (App1.now w) T)); simpl;
    split; intros H'; try lia; now rewrite ?app_nil_r.
Qed.

Lemma render_changed w s :
  App1.mounted w = true ->
  App1.deps s <> App1.deps (App1.rendered w) ->
  App1.step w (App1.Render s) = App1.run_effect s (App1.run_cleanup w).
Proof.
  intros Hm Hd. simpl. rewrite Hm. simpl.
  now rewrite bool_decide_eq_false_2.
Qed.

Lemma run_effect_armed s w p :
  App1.autosave_payload s = Some p ->
  App1.run_effect s w
  = {| App1.now := App1.now w; App1.mounted := App1.mounted w;
       App1.rendered := s; App1.cleanup := Some (App1.next_timer w);
       App1.timers :=
         App1.timers w
         ++ [{| App1.t_id := App1.next_timer w;
                App1.t_due := (App1.now w + App1.AUTOSAVE_DELAY)%Z;
                App1.t_payload := p |}];
       App1.next_timer := S (App1.next_timer w);
       App1.remote := App1.remote w |}.
Proof. intros H. unfold App1.run_effect. now rewrite H. Qed.

Lemma run_effect_idle s w :
  App1.autosave_payload s = None ->
  App1.timers (App1.run_effect s w) = App1.timers w.
Proof. intros H. unfold App1.run_effect. now rewrite H. Qed.

(** A page change while the auto-save is armed: the pending timer is
    cleared and a new one is set for the new page. *)
Lemma pageChange_spec w t p u d :
  autosave_inv w -> App1.mounted w = true ->
  (App1.now w <= t)%Z ->
  p <> App1.currentPage (App1.rendered w) ->
  App1.user (App1.rendered w) = Some u ->
  App1.currentDocId (App1.rendered w) = Some d ->
  truthy d = true ->
  App1.isRestoring (App1.rendered w) = false ->
  let w' := App1.pageChange w (t, p) in
  App1.now w' = t
  /\ App1.mounted w' = true
  /\ App1.rendered w' = App1.setCurrentPage p (App1.rendered w)
  /\ App1.remote w' = App1.remote (App1.step w (App1.Elapse t))
  /\ App1.timers w'
     = [{| App1.t_id := App1.next_timer w;
           App1.t_due := (t + App1.AUTOSAVE_DELAY)%Z;
           App1.t_payload :=
             {| App1.p_user := u; App1.p_docId := d;
                App1.p_docName := App1.currentDocName (App1.rendered w);
                App1.p_page := p |} |}].
Proof.
  intros Hinv Hm Hnow Hp Hu Hd Htruthy Hres. cbv zeta.
  unfold App1.pageChange. cbn [fst snd].
  set (w1 := App1.step w (App1.Elapse t)).
  assert (Hinv1 : autosave_inv w1) by now apply autosave_inv_step.
  assert (Hr1 : App1.rendered w1 = App1.rendered w) by reflexivity.
  assert (Hm1 : App1.mounted w1 = true) by exact Hm.
  assert (Hn1 : App1.now w1 = t) by (simpl; lia).
  assert (Hnext : App1.next_timer w1 = App1.next_timer w) by reflexivity.
  rewrite Hr1.
  rewrite render_changed; [|exact Hm1|].
  2:{ unfold App1.deps. rewrite Hr1. simpl. intros [= Heq]. now apply Hp. }
  destruct (run_cleanup_fields w1) as (Hcn & Hcm & Hcr & Hcx).
  pose proof (run_cleanup_timers w1 Hinv1) as Hct.
  erewrite run_effect_armed.
  2:{ unfold App1.autosave_payload. simpl.
      rewrite Hu, Hd, Htruthy, Hres. reflexivity. }
  simpl. rewrite Hcn, Hcm, Hcr, Hct, Hcx, Hn1, Hm1, Hnext. auto.
Qed.

Lemma last_cons_cons {A} (a b : A) l d :
  List.last (a :: b :: l) d = List.last (b :: l) d.
Proof. reflexivity. Qed.

Lemma last_shift {A} (a : A) l d : List.last (a :: l) d = List.last l a.
Proof.
  revert a d. induction l as [|b l IH]; intros a d; [reflexivity|].
  rewrite last_cons_cons, IH. symmetry. apply IH.
Qed.

(** A burst of page changes leaves one pending timer, set by the last
    change, and has written nothing. *)
Lemma burst_spec changes : forall w t1 p1 u d,
  autosave_inv w -> App1.mounted w = true ->
  (App1.now w <= t1)%Z ->
  p1 <> App1.currentPage (App1.rendered w) ->
  App1.user (App1.rendered w) = Some u ->
  App1.currentDocId (App1.rendered w) = Some d ->
  truthy d = true ->
  App1.isRestoring (App1.rendered w) = false ->
  App1.burst t1 p1 changes ->
  let w' := foldl App1.pageChange w ((t1, p1) :: changes) in
  let last_change := List.last changes (t1, p1) in
  App1.now w' = fst last_change
  /\ App1.remote w' = App1.remote (App1.step w (App1.Elapse t1))
  /\ exists id,
       App1.timers w'
       = [{| App1.t_id := id;
             App1.t_due := (fst last_change + App1.AUTOSAVE_DELAY)%Z;
             App1.t_payload :=
               {| App1.p_user := u; App1.p_docId := d;
                  App1.p_docName := App1.currentDocName (App1.rendered w);
                  App1.p_page := snd last_change |} |}].
Proof.
  induction changes as [|[t2 p2] changes IH];
    intros w t1 p1 u d Hinv Hm Hnow Hp Hu Hd Htruthy Hres Hburst.
  - destruct (pageChange_spec w t1 p1 u d) as (Hn & _ & _ & Hr & Ht); auto.
    simpl. eauto.
  - destruct (pageChange_spec w t1 p1 u d) as (Hn & Hm' & Hr' & Hr & Ht); auto.
    destruct Hburst as (Ht2 & Hp2 & Hburst).
    set (w1 := App1.pageChange w (t1, p1)) in *.
    assert (Hinv1 : autosave_inv w1).
    { unfold w1, App1.pageChange. now do 2 apply autosave_inv_step. }
    specialize (IH w1 t2 p2 u d Hinv1 Hm'). cbv zeta in IH.
    rewrite Hr' in IH.
    destruct IH as (IHn & IHr & id & IHt); auto; [lia|].
    cbv zeta. rewrite last_shift.
    change (foldl App1.pageChange w ((t1, p1) :: (t2, p2) :: changes))
      with (foldl App1.pageChange w1 ((t2, p2) :: changes)).
    split; [exact IHn|]. split; [|eauto].
    rewrite IHr.
    destruct (elapse_single w1 _ t2 Ht) as [Hquiet _].
    destruct Hquiet as [-> _]; [|exact Hr].
    rewrite Hn. simpl. unfold App1.AUTOSAVE_DELAY in *. lia.
Qed.

(** C5: page changes that follow one another within the quiet interval
    lead to exactly one remote write: none is issued during the burst or
    before the interval has passed after the last change, and the one
    issued then carries the page of the last change.  Each change clears
    the timer of the one before, so that only the last timer is
    pending. *)
Theorem debounce_single_write (w : App1.world) (t1 p1 : Z)
    (changes : list (Z * Z)) (u d : jsstring) :
  App1.reachable w -> App1.mounted w = true ->
  (App1.now w <= t1)%Z ->
  p1 <> App1.currentPage (App1.rendered w) ->
  App1.user (App1.rendered w) = Some u ->
  App1.currentDocId (App1.rendered w) = Some d ->
  truthy d = true ->
  App1.isRestoring (App1.rendered w) = false ->
  App1.burst t1 p1 changes ->
  let before := App1.remote (App1.step w (App1.Elapse t1)) in
  let w' := foldl App1.pageChange w ((t1, p1) :: changes) in
  let tn := fst (List.last changes (t1, p1)) in
  let pn := snd (List.last changes (t1, p1)) in
  (exists id,
      App1.timers w'
      = [{| App1.t_id := id; App1.t_due := (tn + App1.AUTOSAVE_DELAY)%Z;
            App1.t_payload :=
              {| App1.p_user := u; App1.p_docId := d;
                 App1.p_docName := App1.currentDocName (App1.rendered w);
                 App1.p_page := pn |} |}])
  /\ (forall T, (T < tn + App1.AUTOSAVE_DELAY)%Z ->
        App1.remote (App1.step w' (App1.Elapse T)) = before)
  /\ (forall T, (tn + App1.AUTOSAVE_DELAY <= T)%Z ->
        App1.remote (App1.step w' (App1.Elapse T))
        = before
          ++ [autosave_write u d (App1.currentDocName (App1.rendered w)) pn
                (tn + App1.AUTOSAVE_DELAY)]
        /\ App1.timers (App1.step w' (App1.Elapse T)) = []).
Proof.
  intros Hreach Hm Hnow Hp Hu Hd Htruthy Hres Hburst.
  destruct (burst_spec changes w t1 p1 u d) as (Hn & Hr & id & Ht); auto using reachable_inv.
  cbv zeta. split; [eauto|].
  pose proof (fun T => elapse_single _ _ T Ht) as Hel.
  rewrite Hn in Hel. cbn [App1.t_due] in Hel.
  split.
  - intros T HT. destruct (Hel T) as [[-> _] _]; [|exact Hr].
    unfold App1.AUTOSAVE_DELAY in *. lia.
  - intros T HT. destruct (Hel T) as [_ [-> ->]]; [lia|].
    rewrite Hr. split; reflexivity.
Qed.

(** The scenario of the specification: pages 2, 3, 4 and 5 reported
    200 ms apart give one write, of page 5, two seconds after the last
    report. *)
Lemma debounce_single_write_witness :
  App1.remote
    (App1.step
       (foldl App1.pageChange (App1.mount 0 (app1_reading 1))
          [(100, 2); (300, 3); (500, 4); (700, 5)]%Z)
       (App1.Elapse 2700))
  = [autosave_write (lit "u") (lit "A") (lit "book.pdf") 5 2700].
Proof.
  refine (proj1 (proj2 (proj2
    (debounce_single_write (App1.mount 0 (app1_reading 1)) 100 2
       [(300, 3); (500, 4); (700, 5)]%Z (lit "u") (lit "A")
       (App1.reach_mount 0 (app1_reading 1)) _ _ _ _ _ _ _ _)) 2700%Z _)).
  - reflexivity.
  - vm_compute. discriminate.
  - vm_compute. discriminate.
  - reflexivity.
  - reflexivity.
  - reflexivity.
  - reflexivity.
  - vm_compute. intuition discriminate.
  - vm_compute. discriminate.
Defined.

Lemma autosave_payload_fields s p :
  App1.autosave_payload s = Some p ->
  App1.user s = Some (App1.p_user p)
  /\ App1.currentDocId s = Some (App1.p_docId p)
  /\ App1.currentDocName s = App1.p_docName p
  /\ App1.currentPage s = App1.p_page p.
Proof.
  unfold App1.autosave_payload.
  destruct (App1.user s) as [u|]; [|discriminate].
  destruct (App1.currentDocId s) as [d|]; [|discriminate].
  destruct (truthy d && negb (App1.isRestoring s)); [|discriminate].
  intros [= <-]. simpl. auto.
Qed.

Lemma autosave_payload_signed_out s :
  App1.user s = None -> App1.autosave_payload s = None.
Proof. unfold App1.autosave_payload. now intros ->. Qed.

Lemma pending_timer_is_current w tm :
  autosave_inv w -> In tm (App1.timers w) ->
  App1.user (App1.rendered w) = Some (App1.p_user (App1.t_payload tm))
  /\ App1.currentDocId (App1.rendered w)
     = Some (App1.p_docId (App1.t_payload tm)).
Proof.
  unfold autosave_inv. destruct (App1.timers w) as [|tm' rest]; [intros _ []|].
  intros (-> & _ & _ & Hp & _) [<-|[]].
  apply autosave_payload_fields in Hp as (Hu & Hd & _). auto.
Qed.

(** C6: a pending remote write always belongs to the document and the
    user of the rendered state, so that every write issued when the clock
    moves on is a write for the document active at that moment; a render
    that switches the document, signs the user out or ends the session
    clears the timer that was pending for the previous document. *)
Theorem no_stale_remote_write (w : App1.world) :
  App1.reachable w ->
  (forall tm, In tm (App1.timers w) ->
      App1.user (App1.rendered w) = Some (App1.p_user (App1.t_payload tm))
      /\ App1.currentDocId (App1.rendered w)
         = Some (App1.p_docId (App1.t_payload tm)))
  /\ (forall T wr, In wr (App1.remote (App1.step w (App1.Elapse T))) ->
      In wr (App1.remote w)
      \/ App1.currentDocId (App1.rendered w)
         = Some (pos_docId (App1.w_position wr)))
  /\ (forall s tm,
      App1.currentDocId s <> App1.currentDocId (App1.rendered w) ->
      In tm (App1.timers (App1.step w (App1.Render s))) ->
      App1.currentDocId s = Some (App1.p_docId (App1.t_payload tm))
      /\ App1.t_due tm = (App1.now w + App1.AUTOSAVE_DELAY)%Z)
  /\ (forall s, App1.user s = None ->
      App1.timers (App1.step w (App1.Render s)) = [])
  /\ App1.timers (App1.step w App1.Unmount) = [].
Proof.
  intros Hreach. pose proof (reachable_inv w Hreach) as Hinv.
  split; [|split; [|split; [|split]]].
  - intros tm Hin. now apply pending_timer_is_current.
  - intros T wr Hin. rewrite elapse_remote in Hin.
    apply in_app_or in Hin as [Hin|Hin]; [now left|right].
    apply in_map_iff in Hin as (tm & <- & Hin).
    apply List.filter_In in Hin as [Hin _].
    now apply pending_timer_is_current.
  - intros s tm Hdoc Hin.
    destruct (App1.mounted w) eqn:Hm.
    + rewrite render_changed in Hin; [|exact Hm|].
      2:{ unfold App1.deps. intros [= _ Heq _ _ _]. now apply Hdoc. }
      destruct (run_cleanup_fields w) as (Hcn & _).
      pose proof (run_cleanup_timers w Hinv) as Hct.
      destruct (App1.autosave_payload s) as [p|] eqn:Hp.
      * rewrite (run_effect_armed _ _ _ Hp) in Hin. simpl in Hin.
        rewrite Hct, Hcn in Hin. destruct Hin as [<-|[]]. simpl.
        apply autosave_payload_fields in Hp as (_ & Hd & _). auto.
      * rewrite (run_effect_idle _ _ Hp), Hct in Hin. destruct Hin.
    + simpl in Hin. rewrite Hm in Hin. simpl in Hin.
      rewrite (unmounted_no_timers w Hinv Hm) in Hin. destruct Hin.
  - intros s Hu. pose proof (autosave_payload_signed_out s Hu) as Hp.
    destruct (App1.mounted w) eqn:Hm.
    + destruct (decide (App1.deps s = App1.deps (App1.rendered w)))
        as [Heq|Hne].
      * simpl. rewrite Hm. simpl. rewrite bool_decide_eq_true_2 by exact Heq.
        simpl. rewrite (autosave_payload_deps _ _ Heq) in Hp.
        unfold autosave_inv in Hinv.
        destruct (App1.timers w); [reflexivity|].
        destruct Hinv as (_ & _ & _ & Hsome & _). congruence.
      * rewrite render_changed by auto.
        rewrite (run_effect_idle _ _ Hp). now apply run_cleanup_timers.
    + simpl. rewrite Hm. simpl. now apply unmounted_no_timers.
  - destruct (App1.mounted w) eqn:Hm; simpl; rewrite Hm; simpl.
    + now apply run_cleanup_timers.
    + now apply unmounted_no_timers.
Qed.

(** A reader on page 3 of document [A]: signing out one second after the
    page change clears the pending write; and when the reader opens
    document [B] instead and its first page comes into view 100 ms later,
    the only write ever issued is the one for [B]. *)
Lemma no_stale_remote_write_witness :
  App1.timers
    (App1.step (App1.step (App1.mount 0 (app1_reading 3)) (App1.Elapse 1000))
       (App1.Render (App1.handleSignOut (app1_reading 3)))) = []
  /\ App1.remote
       (App1.run (App1.mount 0 (app1_reading 3))
          [App1.Elapse 1000;
           App1.Render (App1.switchDocument (lit "B") (lit "b.pdf")
                          (sample_text 3) (app1_reading 3));
           App1.Elapse 1100;
           App1.Render (App1.setCurrentPage 0
                          (App1.switchDocument (lit "B") (lit "b.pdf")
                             (sample_text 3) (app1_reading 3)));
           App1.Elapse 9000])
     = [autosave_write (lit "u") (lit "B") (lit "b.pdf") 0 3100].
Proof.
  split; [|vm_compute; reflexivity].
  exact (proj1 (proj2 (proj2 (proj2
    (no_stale_remote_write
       (App1.step (App1.mount 0 (app1_reading 3)) (App1.Elapse 1000))
       (App1.reach_step _ _ (App1.reach_mount 0 (app1_reading 3)))))))
    (App1.handleSignOut (app1_reading 3)) eq_refl).
Defined.

(** * Further properties of the code *)

(** ** The paginator: page count, page contents, normal form *)

Lemma div_between a n q : n * q <= a < n * S q -> a / n = q.
Proof.
  intros H. assert (0 < n) by nia.
  symmetry. apply (Nat.div_unique a n q (a - n * q)); lia.
Qed.

Lemma chunked_length {A} n (groups : list (list A)) :
  0 < n -> chunked n groups ->
  length groups = (length (concat groups) + (n - 1)) / n.
Proof.
  intros Hn. induction groups as [|g rest IH]; intros Hc.
  - simpl. symmetry. apply Nat.div_small. lia.
  - destruct rest as [|g' rest].
    + simpl in *. rewrite app_nil_r. symmetry. apply div_between. nia.
    + destruct Hc as [Hg Hc]. specialize (IH Hc).
      change (concat (g :: g' :: rest)) with (g ++ concat (g' :: rest)).
      rewrite length_app, Hg.
      set (m := length (concat (g' :: rest))) in *.
      change (length (g :: g' :: rest)) with (S (length (g' :: rest))).
      rewrite IH. symmetry. apply div_between.
      pose proof (Nat.div_mod_eq (m + (n - 1)) n) as Hdm.
      pose proof (Nat.mod_upper_bound (m + (n - 1)) n) as Hmod.
      nia.
Qed.

Lemma chunked_lookup {A} n (groups : list (list A)) : forall k,
  chunked n groups -> n * k < length (concat groups) ->
  groups !! k = Some (take n (drop (n * k) (concat groups))).
Proof.
  induction groups as [|g rest IH]; intros k Hc Hk.
  - simpl in Hk. lia.
  - change (concat (g :: rest)) with (g ++ concat rest) in *.
    rewrite length_app in Hk.
    destruct rest as [|g' rest].
    + simpl in *. rewrite app_nil_r.
      destruct k as [|k]; [|nia].
      rewrite Nat.mul_0_r, drop_0, take_ge by lia. reflexivity.
    + destruct Hc as [Hg Hc].
      destruct k as [|k].
      * rewrite Nat.mul_0_r, drop_0. simpl. f_equal.
        rewrite take_app_le by lia. now rewrite take_ge by lia.
      * simpl lookup. rewrite (IH k Hc) by nia. f_equal. f_equal.
        replace (n * S k) with (length g + n * k) by lia.
        now rewrite drop_app_add.
Qed.

(** X1: [getPages] returns one page per started group of
    [WORDS_PER_PAGE] words, and one page when there is no word. *)
Theorem getPages_count (ph text : jsstring) :
  length (getPages ph text)
  = Nat.max 1 ((length (words text) + (WORDS_PER_PAGE - 1)) / WORDS_PER_PAGE).
Proof.
  destruct (words text) as [|w ws] eqn:E.
  - rewrite getPages_no_words by assumption. reflexivity.
  - destruct (getPages_groups ph text) as (groups & -> & Hcat & Hch);
      [congruence|].
    rewrite E in Hcat. rewrite length_map, <- Hcat.
    rewrite (chunked_length WORDS_PER_PAGE groups) by (auto; unfold WORDS_PER_PAGE; lia).
    apply eq_sym, Nat.max_r.
    rewrite Hcat. apply Nat.div_le_lower_bound;
      unfold WORDS_PER_PAGE; simpl; lia.
Qed.

(** X2: page [k] is made of the words [275 k] to [275 k + 274] of the
    text, joined with single spaces. *)
Theorem getPages_page (ph text : jsstring) (k : nat) :
  WORDS_PER_PAGE * k < length (words text) ->
  getPages ph text !! k
  = Some (join SPACE
            (take WORDS_PER_PAGE (drop (WORDS_PER_PAGE * k) (words text)))).
Proof.
  intros Hk.
  destruct (getPages_groups ph text) as (groups & -> & Hcat & Hch).
  { intros E. rewrite E in Hk. simpl in Hk. lia. }
  rewrite list_lookup_fmap, <- Hcat.
  rewrite (chunked_lookup _ _ k Hch) by now rewrite Hcat.
  reflexivity.
Qed.

Lemma getPages_page_witness :
  getPages App2.placeholder (sample_text 700) !! 2
  = Some (join SPACE (replicate 150 (lit "w"))).
Proof.
  rewrite (getPages_page App2.placeholder (sample_text 700) 2).
  - vm_compute. reflexivity.
  - vm_compute. lia.
Defined.

Lemma join_app (a b : list jsstring) :
  a <> [] -> b <> [] ->
  join SPACE (a ++ b) = join SPACE a ++ SPACE ++ join SPACE b.
Proof.
  intros Ha Hb. induction a as [|x a IH]; [congruence|].
  destruct a as [|y a].
  - destruct b; [congruence|reflexivity].
  - change (join SPACE ((x :: y :: a) ++ b))
      with (x ++ SPACE ++ join SPACE ((y :: a) ++ b)).
    rewrite IH by discriminate.
    change (join SPACE (x :: y :: a)) with (x ++ SPACE ++ join SPACE (y :: a)).
    now rewrite <- !app_assoc.
Qed.

Lemma chunked_nonempty {A} n (groups : list (list A)) :
  0 < n -> chunked n groups -> Forall (fun g => g <> []) groups.
Proof.
  intros Hn. induction groups as [|g rest IH]; intros Hc; constructor.
  - destruct rest; simpl in Hc; destruct g; simpl in *; try discriminate; lia.
  - apply IH. destruct rest; [exact I|]. now destruct Hc.
Qed.

Lemma join_pages (groups : list (list jsstring)) :
  Forall (fun g => g <> []) groups ->
  join SPACE (map (join SPACE) groups) = join SPACE (concat groups).
Proof.
  induction 1 as [|g rest Hg Hrest IH]; [reflexivity|].
  destruct rest as [|g' rest].
  - simpl. now rewrite app_nil_r.
  - change (concat (g :: g' :: rest)) with (g ++ concat (g' :: rest)).
    rewrite join_app; [|assumption|].
    + rewrite <- IH. reflexivity.
    + inversion Hrest; subst. simpl. destruct g'; [congruence|discriminate].
Qed.

Lemma getPages_words_only ph text text' :
  words text = words text' -> getPages ph text = getPages ph text'.
Proof. intros H. unfold getPages. now rewrite H. Qed.

(** X3: the pages of a text with at least one word are in normal form
    (the words of a page joined with single spaces are the page), and
    paginating the pages joined with spaces gives the same pages. *)
Theorem getPages_normal_form (ph text : jsstring) :
  words text <> [] ->
  Forall (fun p => join SPACE (words p) = p) (getPages ph text)
  /\ getPages ph (join SPACE (getPages ph text)) = getPages ph text.
Proof.
  intros Hne.
  destruct (getPages_groups ph text Hne) as (groups & Hpages & Hcat & Hch).
  assert (Hw : Forall (Forall is_word) groups).
  { eapply concat_words_in; [exact Hcat|apply words_are_words]. }
  assert (Hn : Forall (fun g : list jsstring => g <> []) groups).
  { apply (chunked_nonempty WORDS_PER_PAGE); [unfold WORDS_PER_PAGE; lia|auto]. }
  split.
  - rewrite Hpages. apply Forall_fmap.
    eapply Forall_impl; [exact Hw|]. intros g Hg. simpl.
    now rewrite words_tokenize, tokenize_join.
  - apply getPages_words_only.
    rewrite Hpages, join_pages by exact Hn.
    rewrite words_tokenize, tokenize_join; [exact Hcat|].
    rewrite Hcat. apply words_are_words.
Qed.

Lemma getPages_normal_form_witness :
  getPages App1.placeholder
    (join SPACE (getPages App1.placeholder (sample_text 300)))
  = getPages App1.placeholder (sample_text 300).
Proof.
  apply (getPages_normal_form App1.placeholder (sample_text 300)).
  vm_compute. discriminate.
Defined.

(** ** Sanitized ids *)

(** X4: a sanitized id has the length of the id and consists of ASCII
    letters, digits and underscores only, so that it holds no path
    separator; sanitizing is idempotent and keeps an id of letters and
    digits as it is. *)
Theorem sanitize_safe (id : jsstring) :
  length (sanitize id) = length id
  /\ Forall (fun c => is_alnum c = true \/ c = UNDERSCORE) (sanitize id)
  /\ ~ In 47%N (sanitize id)
  /\ sanitize (sanitize id) = sanitize id
  /\ (forallb is_alnum id = true -> sanitize id = id).
Proof.
  assert (Hall : Forall (fun c => is_alnum c = true \/ c = UNDERSCORE)
                   (sanitize id)).
  { unfold sanitize. apply Forall_fmap, Forall_true. intros c. simpl.
    destruct (is_alnum c) eqn:E; auto. }
  split; [apply length_map|]. split; [exact Hall|]. split; [|split].
  - intros Hin. rewrite Forall_forall in Hall.
    apply list_elem_of_In in Hin.
    destruct (Hall _ Hin) as [H|H]; vm_compute in H; discriminate.
  - unfold sanitize. rewrite <- list_fmap_compose.
    apply list_fmap_ext. intros _ c _. simpl.
    destruct (is_alnum c) eqn:E; [now rewrite E|reflexivity].
  - clear Hall. unfold sanitize.
    induction id as [|c id IH]; simpl; [reflexivity|].
    intros H. apply andb_prop in H as [-> H]. f_equal. now apply IH.
Qed.

Lemma sanitize_safe_witness :
  sanitize (lit "abc123") = lit "abc123"
  /\ sanitize (lit "novel-quest/v1") = lit "novel_quest_v1".
Proof.
  split; [|reflexivity].
  apply (sanitize_safe (lit "abc123")). reflexivity.
Defined.

(** ** The sorted library *)

Lemma insert_entry_perm e l : insert_entry e l ≡ₚ e :: l.
Proof.
  induction l as [|e' l IH]; simpl; [reflexivity|].
  destruct (entry_timestamp e' <=? entry_timestamp e)%Z; [reflexivity|].
  rewrite IH. apply Permutation_swap.
Qed.

Lemma insert_entry_sorted e l :
  StronglySorted newer_first l -> StronglySorted newer_first (insert_entry e l).
Proof.
  induction 1 as [|e' l Hl IH Hall]; simpl.
  - repeat constructor.
  - destruct (Z.leb_spec (entry_timestamp e') (entry_timestamp e)).
    + constructor; [now constructor|].
      constructor; [assumption|].
      eapply Forall_impl; [exact Hall|]. unfold newer_first. intros; lia.
    + constructor; [assumption|].
      rewrite (insert_entry_perm e l). constructor; [|assumption].
      unfold newer_first. lia.
Qed.

Lemma insert_entry_filter t e l :
  List.filter (fun x => (entry_timestamp x =? t)%Z) (insert_entry e l)
  = List.filter (fun x => (entry_timestamp x =? t)%Z) (e :: l).
Proof.
  induction l as [|e' l IH]; [reflexivity|]. simpl insert_entry.
  destruct (Z.leb_spec (entry_timestamp e') (entry_timestamp e));
    [reflexivity|].
  simpl in *. rewrite IH.
  destruct (Z.eqb_spec (entry_timestamp e) t),
           (Z.eqb_spec (entry_timestamp e') t); try reflexivity. lia.
Qed.

(** X5: the library is the snapshot sorted by time stamp, newest first:
    the same entries, each one not older than those after it, and entries
    with equal time stamps in the order of the snapshot. *)
Theorem sortSources_sorted (docs : list (jsstring * source)) :
  sortSources docs ≡ₚ docs
  /\ StronglySorted newer_first (sortSources docs)
  /\ (forall t,
        List.filter (fun e => (entry_timestamp e =? t)%Z) (sortSources docs)
        = List.filter (fun e => (entry_timestamp e =? t)%Z) docs).
Proof.
  unfold sortSources.
  induction docs as [|e docs (IHp & IHs & IHf)]; simpl.
  - repeat split; constructor.
  - split; [|split].
    + rewrite insert_entry_perm. now constructor.
    + now apply insert_entry_sorted.
    + intros t. rewrite insert_entry_filter. simpl. now rewrite IHf.
Qed.

(** ** [trim] *)

Lemma trimStart_blank s : blank s = true -> trimStart s = [].
Proof.
  unfold blank. induction s as [|c s IH]; simpl; [reflexivity|].
  intros H. apply andb_prop in H as [-> H]. auto.
Qed.

Lemma trimStart_not_blank s : blank s = false -> blank (trimStart s) = false.
Proof.
  unfold blank. induction s as [|c s IH]; simpl; [discriminate|].
  destruct (is_space c) eqn:E; simpl; [exact IH|].
  intros _. now rewrite E.
Qed.

Lemma blank_rev s : blank (rev s) = blank s.
Proof.
  unfold blank. induction s as [|c s IH]; [reflexivity|].
  simpl. rewrite forallb_app, IH. simpl.
  rewrite andb_true_r. apply andb_comm.
Qed.

(** [!s.trim()] holds exactly when every code unit of [s] is white
    space. *)
Lemma trim_blank s : negb (truthy (trim s)) = blank s.
Proof.
  unfold trim, trimEnd. destruct (blank s) eqn:E.
  - rewrite (trimStart_blank s E). reflexivity.
  - apply trimStart_not_blank in E. rewrite <- blank_rev in E.
    apply trimStart_not_blank in E. rewrite <- blank_rev in E.
    destruct (rev (trimStart (rev (trimStart s)))); [discriminate|reflexivity].
Qed.

Lemma trimStart_suffix s : exists a, s = a ++ trimStart s.
Proof.
  induction s as [|c s [a IH]]; [now exists []|]. simpl.
  destruct (is_space c).
  - exists (c :: a). simpl. now f_equal.
  - now exists [].
Qed.

Lemma trim_length s : length (trim s) <= length s.
Proof.
  unfold trim, trimEnd. rewrite length_rev.
  destruct (trimStart_suffix (rev (trimStart s))) as [a Ha].
  destruct (trimStart_suffix s) as [b Hb].
  apply (f_equal (@length N)) in Ha, Hb.
  rewrite length_app in Ha, Hb. rewrite length_rev in Ha. lia.
Qed.

(** ** First revision: upload, library and remote position *)

Lemma extract_all (doc : pdf) :
  extract_loop doc (seq 1 (numPages doc)) [] = Some (concat (map pageText doc)).
Proof.
  unfold numPages. rewrite extract_loop_seq by lia.
  now rewrite drop_0, take_ge by lia.
Qed.

(** X6: the upload of the first revision stores the text of every page
    of the PDF, whatever their number, and opens the stored document;
    without a signed-in user, a file or the PDF library nothing is stored
    and the state is unchanged. *)
Theorem app1_upload_keeps_every_page (name : jsstring) (doc : pdf)
    (id : jsstring) (ts : Z) (s : App1.state) :
  (forall u, App1.user s = Some u ->
      App1.handleFileUpload true (Some (name, doc)) id ts s
      = (Some {| src_name := name;
                 src_content := concat (map pageText doc);
                 src_timestamp := ts |},
         App1.switchDocument id name (concat (map pageText doc)) s))
  /\ (App1.user s = None ->
      forall ready file, App1.handleFileUpload ready file id ts s = (None, s))
  /\ (forall ready, App1.handleFileUpload ready None id ts s = (None, s))
  /\ (forall file, App1.handleFileUpload false file id ts s = (None, s)).
Proof.
  unfold App1.handleFileUpload. split; [|split; [|split]].
  - intros u ->. simpl. now rewrite extract_all.
  - now intros ->.
  - intros ready. now destruct (App1.user s).
  - intros [[n d]|]; now destruct (App1.user s).
Qed.

Lemma app1_upload_keeps_every_page_witness :
  option_map (fun d => length (words (src_content d)))
    (fst (App1.handleFileUpload true
            (Some (lit "a.pdf", replicate 60 [lit "x"; lit "y"]))
            (lit "A") 0 (app1_signed_in (lit "u"))))
  = Some 120.
Proof.
  destruct (app1_upload_keeps_every_page (lit "a.pdf")
              (replicate 60 [lit "x"; lit "y"]) (lit "A") 0
              (app1_signed_in (lit "u"))) as [H _].
  rewrite (H (lit "u") eq_refl). vm_compute. reflexivity.
Defined.

Lemma findSource_id id library e :
  findSource id library = Some e -> fst e = id /\ In e library.
Proof.
  unfold findSource. intros H. apply List.find_some in H as [Hin Hb].
  apply bool_decide_eq_true_1 in Hb. auto.
Qed.

Lemma scrollToPage_first n : 0 < n -> scrollToPage n 0 = Some 0.
Proof.
  intros Hn. unfold scrollToPage.
  replace (0 <? Z.of_nat n)%Z with true by (symmetry; apply Z.ltb_lt; lia).
  reflexivity.
Qed.

(** X7: "Jump back in" does nothing when no position is known or when
    the document of the position is no longer in the library; otherwise
    it opens that document and ends on the saved page when the document
    has such a page, and on its first page when it has not. *)
Theorem resume_last_position (library : list (jsstring * source))
    (s : App1.state) :
  (App1.savedPosition s = None -> App1.resumeLastPosition library s = (s, []))
  /\ (forall pos, App1.savedPosition s = Some pos ->
        findSource (pos_docId pos) library = None ->
        App1.resumeLastPosition library s = (s, []))
  /\ (forall pos e, App1.savedPosition s = Some pos ->
        truthy (pos_docId pos) = true ->
        findSource (pos_docId pos) library = Some e ->
        let '(s', targets) := App1.resumeLastPosition library s in
        let pageCount := length (App1.getPages (App1.text s')) in
        App1.currentDocId s' = Some (pos_docId pos)
        /\ App1.text s' = src_content (snd e)
        /\ scrollAll pageCount None targets
           = Some (if ((0 <=? pos_page pos)
                       && (pos_page pos <? Z.of_nat pageCount))%Z
                   then Z.to_nat (pos_page pos) else 0)).
Proof.
  unfold App1.resumeLastPosition. split; [|split].
  - now intros ->.
  - intros pos -> ->. now destruct (truthy (pos_docId pos)).
  - intros pos e -> -> He. rewrite He.
    apply findSource_id in He as [<- _]. cbv zeta.
    split; [reflexivity|]. split; [reflexivity|].
    unfold scrollAll. simpl foldl.
    rewrite scrollToPage_first by apply getPages_length_pos.
    unfold scrollToPage at 1.
    now destruct ((0 <=? pos_page pos)%Z && _).
Qed.

Lemma resume_last_position_witness :
  scrollAll 8 None
    (snd (App1.resumeLastPosition [(lit "A", sample_source 2000)]
            (fst (App1.onPositionSnapshot (sample_store 2000 12)
                    (app1_reading 0) (app1_reading 0)))))
  = Some 0.
Proof.
  pose proof (resume_last_position [(lit "A", sample_source 2000)]
                (fst (App1.onPositionSnapshot (sample_store 2000 12)
                        (app1_reading 0) (app1_reading 0))))
    as (_ & _ & H).
  specialize (H _ (lit "A", sample_source 2000) eq_refl eq_refl eq_refl).
  destruct (App1.resumeLastPosition _ _) as [s' targets].
  destruct H as (_ & Htext & Hscroll). simpl snd.
  rewrite Htext in Hscroll.
  change (src_content (snd (lit "A", sample_source 2000)))
    with (sample_text 2000) in Hscroll.
  replace (length (App1.getPages (sample_text 2000)))
    with 8 in Hscroll by (vm_compute; reflexivity).
  exact Hscroll.
Defined.

Lemma elapse_no_timers w T :
  App1.timers w = [] ->
  App1.remote (App1.step w (App1.Elapse T)) = App1.remote w
  /\ App1.timers (App1.step w (App1.Elapse T)) = [].
Proof. intros H. simpl. rewrite H. simpl. now rewrite app_nil_r. Qed.

(** X8: deleting the open document disarms the auto-save: the pending
    remote write is cleared and none is issued however long the reader
    waits, so that the remote position keeps the deleted document;
    deleting another document leaves the state as it is. *)
Theorem delete_current_disarms_autosave (w : App1.world) (id u : jsstring) :
  App1.reachable w -> App1.mounted w = true ->
  App1.user (App1.rendered w) = Some u ->
  App1.currentDocId (App1.rendered w) = Some id ->
  let w' := App1.step w
              (App1.Render (App1.deleteFromLibrary id (App1.rendered w))) in
  App1.currentDocId (App1.rendered w') = None
  /\ App1.timers w' = []
  /\ (forall T, App1.remote (App1.step w' (App1.Elapse T)) = App1.remote w)
  /\ (forall id', id' <> id ->
        App1.deleteFromLibrary id' (App1.rendered w) = App1.rendered w).
Proof.
  intros Hreach Hm Hu Hid. cbv zeta.
  pose proof (reachable_inv w Hreach) as Hinv.
  assert (Hdel : App1.deleteFromLibrary id (App1.rendered w)
                 = {| App1.user := Some u; App1.text := [];
                      App1.currentDocId := None;
                      App1.currentDocName := lit "Untitled Manuscript";
                      App1.currentPage := App1.currentPage (App1.rendered w);
                      App1.isRestoring := App1.isRestoring (App1.rendered w);
                      App1.savedPosition :=
                        App1.savedPosition (App1.rendered w) |}).
  { unfold App1.deleteFromLibrary. rewrite Hu, Hid.
    now rewrite bool_decide_eq_true_2. }
  rewrite Hdel. set (s' := {| App1.user := Some u |}).
  assert (Hstep : App1.step w (App1.Render s')
                  = App1.run_effect s' (App1.run_cleanup w)).
  { apply render_changed; [exact Hm|].
    unfold App1.deps. rewrite Hid. simpl. congruence. }
  assert (Hidle : App1.autosave_payload s' = None) by reflexivity.
  assert (Ht : App1.timers (App1.step w (App1.Render s')) = []).
  { rewrite Hstep, (run_effect_idle _ _ Hidle). now apply run_cleanup_timers. }
  assert (Hr : App1.remote (App1.step w (App1.Render s')) = App1.remote w).
  { rewrite Hstep. unfold App1.run_effect. rewrite Hidle. simpl.
    apply run_cleanup_fields. }
  split; [|split; [exact Ht|split]].
  - rewrite Hstep. unfold App1.run_effect. now rewrite Hidle.
  - intros T. destruct (elapse_no_timers _ T Ht) as [-> _]. exact Hr.
  - intros id' Hne. unfold App1.deleteFromLibrary. rewrite Hu, Hid.
    rewrite bool_decide_eq_false_2; [reflexivity|congruence].
Qed.

Lemma delete_current_disarms_autosave_witness :
  App1.remote
    (App1.step
       (App1.step (App1.mount 0 (app1_reading 3))
          (App1.Render (App1.deleteFromLibrary (lit "A") (app1_reading 3))))
       (App1.Elapse 60000)) = [].
Proof.
  exact (proj1 (proj2 (proj2
    (delete_current_disarms_autosave (App1.mount 0 (app1_reading 3))
       (lit "A") (lit "u") (App1.reach_mount 0 (app1_reading 3))
       eq_refl eq_refl eq_refl))) 60000%Z).
Defined.

(** X9: the remote position round trip.  The position the auto-save
    writes for a state, read back by a fresh session whose store still
    holds the document, opens the same document with the stored text and
    asks for the same page; the restore scrolls to it when the document
    has such a page. *)
Theorem remote_position_round_trip (fs : firestore) (s : App1.state)
    (p : App1.payload) (src : source) (id : nat) (due : Z) (u : jsstring) :
  App1.autosave_payload s = Some p ->
  sources fs !! App1.p_docId p = Some src ->
  let wr := App1.fire {| App1.t_id := id; App1.t_due := due;
                         App1.t_payload := p |} in
  let fresh := app1_signed_in u in
  let restored := App1.onPositionSnapshot (App1.applyWrite wr fs) fresh fresh in
  App1.currentDocId (fst restored) = App1.currentDocId s
  /\ App1.text (fst restored) = src_content src
  /\ App1.isRestoring (fst restored) = false
  /\ snd restored = Some (App1.currentPage s)
  /\ App1.restoreScroll (App1.applyWrite wr fs) fresh fresh
     = scrollToPage (length (App1.getPages (src_content src)))
         (App1.currentPage s).
Proof.
  intros Hp Hsrc. cbv zeta.
  pose proof (autosave_payload_fields s p Hp) as (_ & Hd & _ & Hpage).
  assert (Htruthy : truthy (App1.p_docId p) = true).
  { unfold App1.autosave_payload in Hp.
    destruct (App1.user s); [|discriminate].
    destruct (App1.currentDocId s) as [d|]; [|discriminate].
    destruct (truthy d) eqn:E; [|discriminate].
    destruct (App1.isRestoring s); [discriminate|].
    injection Hp as <-. exact E. }
  unfold App1.restoreScroll, App1.onPositionSnapshot. simpl.
  rewrite Htruthy, Hsrc. simpl. rewrite Hd, Hpage. auto.
Qed.

Lemma remote_position_round_trip_witness :
  App1.restoreScroll
    (App1.applyWrite (autosave_write (lit "u") (lit "A") (lit "book.pdf") 5 2700)
       (sample_store 2000 0))
    (app1_signed_in (lit "u")) (app1_signed_in (lit "u"))
  = Some 5.
Proof.
  pose proof (remote_position_round_trip (sample_store 2000 0)
                (app1_reading 5)
                {| App1.p_user := lit "u"; App1.p_docId := lit "A";
                   App1.p_docName := lit "book.pdf"; App1.p_page := 5 |}
                (sample_source 2000) 0 2700 (lit "u") eq_refl eq_refl)
    as (_ & _ & _ & _ & H).
  etransitivity; [exact H|]. vm_compute. reflexivity.
Defined.

(** ** Second revision: local storage, sign-out, rate limiter, chat *)

(** X10: what the save effect writes is what the initializers read
    back: after a reload the text and the page index are those of the
    saved state, the document id is kept unless it was empty, the name is
    kept unless it was empty; the user and the time of the last API call
    are not kept.  When the saved page exists, the auto-scroll of the
    reloaded session hands its index to [scrollToPage]; the scroll
    reaches the page when the page elements are rendered as the timer
    fires, and does nothing while the loading screen is rendered. *)
Theorem app2_reload_round_trip (s : App2.state) :
  let s' := App2.init (App2.localStorage (App2.persist s)) in
  App2.text s' = App2.text s
  /\ App2.currentPage s' = App2.currentPage s
  /\ App2.currentDocId s'
     = match App2.currentDocId s with
       | Some d => if truthy d then Some d else None
       | None => None
       end
  /\ App2.currentDocName s'
     = or_else (App2.currentDocName s) (lit "Untitled Manuscript")
  /\ App2.user s' = None
  /\ App2.lastAiCall s' = 0%Z
  /\ ((0 <= App2.currentPage s < Z.of_nat (length (App2.pages s)))%Z ->
      App2.safeIndex s' = App2.currentPage s
      /\ (forall elements,
            App2.autoScroll elements s'
            = scrollToPage elements (App2.currentPage s))
      /\ App2.autoScroll (pageElements true (length (App2.pages s'))) s'
         = Some (Z.to_nat (App2.currentPage s))
      /\ App2.autoScroll (pageElements false (length (App2.pages s'))) s'
         = None).
Proof.
  cbv zeta. set (s' := App2.init _).
  assert (Hpages : App2.pages s' = App2.pages s) by reflexivity.
  do 2 (split; [reflexivity|]).
  split; [unfold s', App2.init, App2.persist; simpl;
          now destruct (App2.currentDocId s)|].
  do 3 (split; [reflexivity|]).
  intros Hrange.
  assert (Hsafe : App2.safeIndex s' = App2.currentPage s).
  { unfold App2.safeIndex. rewrite Hpages.
    change (App2.currentPage s') with (App2.currentPage s). lia. }
  assert (Hall : forall elements,
             App2.autoScroll elements s'
             = scrollToPage elements (App2.currentPage s)).
  { intros elements. unfold App2.autoScroll. rewrite Hsafe, Hpages.
    destruct (Nat.eqb_spec (length (App2.pages s)) 0) as [Hz|_];
      [lia|reflexivity]. }
  split; [exact Hsafe|]. split; [exact Hall|]. rewrite !Hall, Hpages.
  split.
  - now apply scrollToPage_in_range.
  - apply scrollToPage_no_element.
Qed.

Lemma app2_reload_round_trip_witness :
  let s' := App2.init (App2.localStorage
                         (App2.persist (App2.init (sample_local 2000 5)))) in
  App2.autoScroll (pageElements true 8) s' = Some 5
  /\ App2.autoScroll (pageElements false 8) s' = None.
Proof.
  cbv zeta.
  assert (Hrange : (0 <= App2.currentPage (App2.init (sample_local 2000 5))
                    < Z.of_nat (length (App2.pages
                                          (App2.init (sample_local 2000 5)))))%Z)
    by (vm_compute; intuition discriminate).
  destruct (app2_reload_round_trip (App2.init (sample_local 2000 5)))
    as (_ & _ & _ & _ & _ & _ & H).
  destruct (H Hrange) as (_ & _ & Hshown & Hloader).
  split; [exact Hshown|exact Hloader].
Defined.

(** X11: signing out while a document with text is open does not forget
    it: the handler removes the document id from local storage, but the
    state [currentDocId] is not reset, and the save effect of the same
    render writes the id back; a reload finds the id again, with an empty
    text.  With no text and the default name the effect does not run and
    the removal stands. *)
Theorem app2_sign_out_keeps_document_id (s : App2.state) (d : jsstring) :
  App2.currentDocId s = Some d -> truthy d = true ->
  let s' := App2.render s (App2.handleSignOut s) in
  (App2.text s <> [] ->
      App2.user s' = None
      /\ App2.text s' = []
      /\ App2.novelQuestText (App2.localStorage s') = Some []
      /\ App2.novelQuestCurrentDocId (App2.localStorage s') = Some d
      /\ App2.currentDocId (App2.init (App2.localStorage s')) = Some d)
  /\ (App2.text s = [] ->
      App2.currentDocName s = lit "Untitled Manuscript" ->
      App2.novelQuestCurrentDocId (App2.localStorage s') = None).
Proof.
  intros Hd Htruthy. cbv zeta. unfold App2.render. split.
  - intros Htext. rewrite bool_decide_eq_false_2.
    2:{ unfold App2.save_deps. simpl. intros [= H _]. now apply Htext. }
    unfold App2.init. simpl. rewrite Hd. simpl. rewrite Htruthy. auto.
  - intros Htext Hname. rewrite bool_decide_eq_true_2.
    2:{ unfold App2.save_deps. simpl. now rewrite Htext, Hname. }
    reflexivity.
Qed.

Lemma app2_sign_out_keeps_document_id_witness :
  App2.currentDocId
    (App2.init
       (App2.localStorage
          (App2.render (App2.init (sample_local 3 0))
             (App2.handleSignOut (App2.init (sample_local 3 0))))))
  = Some (lit "A").
Proof.
  apply (app2_sign_out_keeps_document_id (App2.init (sample_local 3 0))
           (lit "A") eq_refl eq_refl).
  vm_compute. discriminate.
Defined.

Lemma callAi_cases key now tr s :
  ((now - App2.lastAiCall s < App2.AI_CALL_DELAY)%Z
   /\ App2.callAi key now tr s
      = (App2.RateLimited
           (ceil_div (App2.AI_CALL_DELAY - (now - App2.lastAiCall s)) 1000),
         {| App2.user := App2.user s; App2.text := App2.text s;
            App2.currentDocId := App2.currentDocId s;
            App2.currentDocName := App2.currentDocName s;
            App2.currentPage := App2.currentPage s;
            App2.lastAiCall := App2.lastAiCall s;
            App2.nextCallAvailable :=
              ceil_div (App2.AI_CALL_DELAY - (now - App2.lastAiCall s)) 1000;
            App2.localStorage := App2.localStorage s |}))
  \/ ((App2.AI_CALL_DELAY <= now - App2.lastAiCall s)%Z
      /\ ((truthy key = false /\ App2.callAi key now tr s = (App2.MissingKey, s))
          \/ (truthy key = true /\ blank (App2.text s) = true
              /\ App2.callAi key now tr s = (App2.NoDocument, s))
          \/ (truthy key = true /\ blank (App2.text s) = false
              /\ exists c m s',
                   App2.callAi key now tr s = (App2.Request c m, s')
                   /\ App2.lastAiCall s' = now
                   /\ App2.text s' = App2.text s))).
Proof.
  unfold App2.callAi. cbv zeta.
  destruct (Z.ltb_spec (now - App2.lastAiCall s) App2.AI_CALL_DELAY);
    [left; auto|right; split; [assumption|]].
  destruct (truthy key); simpl; [|auto].
  destruct (blank (App2.text s)); simpl; [auto|].
  right. right. split; [reflexivity|]. split; [reflexivity|].
  eexists _, _, _. split; [reflexivity|]. split; reflexivity.
Qed.

Lemma ceil_div_1000 a :
  (0 < a <= 1500)%Z ->
  (1 <= ceil_div a 1000 <= 2 /\ a <= 1000 * ceil_div a 1000)%Z.
Proof.
  intros Ha. unfold ceil_div.
  pose proof (Z.div_mod (- a) 1000 ltac:(lia)) as Hdm.
  pose proof (Z.mod_pos_bound (- a) 1000 ltac:(lia)) as Hmod.
  lia.
Qed.

(** X12: the wait a refused invocation announces is one or two seconds,
    and it is enough: an invocation made that many seconds later is not
    refused by the rate limiter. *)
Theorem callAi_wait_suffices (key : jsstring) (now : Z) (tr : bool)
    (s : App2.state) :
  (0 <= now - App2.lastAiCall s < App2.AI_CALL_DELAY)%Z ->
  exists wait,
    fst (App2.callAi key now tr s) = App2.RateLimited wait
    /\ App2.nextCallAvailable (snd (App2.callAi key now tr s)) = wait
    /\ (1 <= wait <= 2)%Z
    /\ (forall key' tr' later, (now + 1000 * wait <= later)%Z ->
          forall wait',
            fst (App2.callAi key' later tr' (snd (App2.callAi key now tr s)))
            <> App2.RateLimited wait').
Proof.
  intros Hnow.
  destruct (callAi_cases key now tr s) as [[_ Hcall]|[Hge _]];
    [|unfold App2.AI_CALL_DELAY in *; lia].
  rewrite Hcall. cbn [fst snd].
  set (wait := ceil_div _ 1000).
  destruct (ceil_div_1000 (App2.AI_CALL_DELAY - (now - App2.lastAiCall s)))
    as [Hwait Hcover]; [unfold App2.AI_CALL_DELAY in *; lia|].
  fold wait in Hwait, Hcover.
  exists wait. repeat split; try lia.
  intros key' tr' later Hlater wait'.
  set (s1 := {| App2.user := App2.user s |}).
  destruct (callAi_cases key' later tr' s1)
    as [[Hlt _]|[_ [[_ ->]|[(_ & _ & ->)|(_ & _ & c & m & s2 & -> & _)]]]];
    try discriminate.
  unfold s1 in Hlt. simpl in Hlt. unfold App2.AI_CALL_DELAY in *. lia.
Qed.

Lemma callAi_wait_suffices_witness :
  fst (App2.callAi (lit "k") 12400 false
         (snd (App2.callAi (lit "k") 10400 false
                 (snd (App2.callAi (lit "k") 10000 false
                         (App2.init (sample_local 3 0)))))))
  <> App2.RateLimited 1.
Proof.
  destruct (callAi_wait_suffices (lit "k") 10400 false
              (snd (App2.callAi (lit "k") 10000 false
                      (App2.init (sample_local 3 0)))))
    as (wait & Hwait & _ & _ & Hlater); [vm_compute; intuition discriminate|].
  apply Hlater. vm_compute in Hwait. injection Hwait as <-.
  vm_compute. discriminate.
Defined.

Lemma callAi_all_cons key t times s :
  App2.callAi_all key (t :: times) s
  = (fst (App2.callAi key t false s)
       :: fst (App2.callAi_all key times (snd (App2.callAi key t false s))),
     snd (App2.callAi_all key times (snd (App2.callAi key t false s)))).
Proof.
  cbn [App2.callAi_all]. destruct (App2.callAi key t false s) as [o s1].
  cbn [fst snd]. now destruct (App2.callAi_all key times s1) as [os s2].
Qed.

(** The last API call recorded never moves back when a request is made. *)
Lemma callAi_lastAiCall key t tr s :
  (exists c m, fst (App2.callAi key t tr s) = App2.Request c m
               /\ App2.lastAiCall (snd (App2.callAi key t tr s)) = t
               /\ (App2.AI_CALL_DELAY <= t - App2.lastAiCall s)%Z)
  \/ ((forall c m, fst (App2.callAi key t tr s) <> App2.Request c m)
      /\ App2.lastAiCall (snd (App2.callAi key t tr s)) = App2.lastAiCall s).
Proof.
  destruct (callAi_cases key t tr s)
    as [[_ ->]|[Hge [[_ ->]|[(_ & _ & ->)|(_ & _ & c & m & s' & -> & Hl & _)]]]];
    try (right; split; [discriminate|reflexivity]).
  left. exists c, m. auto.
Qed.

Lemma request_after_lastAiCall key times : forall s j tj,
  times !! j = Some tj ->
  is_request (fst (App2.callAi_all key times s) !! j) ->
  (App2.AI_CALL_DELAY <= tj - App2.lastAiCall s)%Z.
Proof.
  induction times as [|t times IH]; intros s j tj Hj Hreq; [discriminate|].
  rewrite callAi_all_cons in Hreq. cbn [fst] in Hreq.
  destruct j as [|j].
  - injection Hj as <-. destruct Hreq as (c & m & [= Hreq]).
    destruct (callAi_lastAiCall key t false s)
      as [(_ & _ & _ & _ & H)|[Hno _]]; [exact H|].
    now apply Hno in Hreq.
  - simpl in Hj, Hreq. specialize (IH _ j tj Hj Hreq).
    destruct (callAi_lastAiCall key t false s)
      as [(_ & _ & _ & Hl & H)|[_ Hl]]; rewrite Hl in IH;
      unfold App2.AI_CALL_DELAY in *; lia.
Qed.

(** X13: whatever the times of a run of invocations of [callAi], two
    requests that reach the API are at least [AI_CALL_DELAY] apart. *)
Theorem requests_spaced (key : jsstring) (times : list Z) (s : App2.state)
    (i j : nat) (ti tj : Z) :
  i < j ->
  times !! i = Some ti -> times !! j = Some tj ->
  is_request (fst (App2.callAi_all key times s) !! i) ->
  is_request (fst (App2.callAi_all key times s) !! j) ->
  (App2.AI_CALL_DELAY <= tj - ti)%Z.
Proof.
  revert s i j. induction times as [|t times IH];
    intros s i j Hij Hi Hj Hri Hrj; [discriminate|].
  rewrite callAi_all_cons in Hri, Hrj. cbn [fst] in Hri, Hrj.
  destruct j as [|j]; [lia|]. simpl in Hj, Hrj.
  destruct i as [|i].
  - injection Hi as <-. destruct Hri as (c & m & [= Hri]).
    pose proof (request_after_lastAiCall key times _ j tj Hj Hrj) as H.
    destruct (callAi_lastAiCall key t false s)
      as [(_ & _ & _ & Hl & _)|[Hno _]]; [now rewrite Hl in H|].
    now apply Hno in Hri.
  - simpl in Hi, Hri.
    apply (IH (snd (App2.callAi key t false s)) i j); auto. lia.
Qed.

Lemma requests_spaced_witness :
  (App2.AI_CALL_DELAY <= 11600 - 10000)%Z.
Proof.
  apply (requests_spaced (lit "k") [10000; 11000; 11600]%Z
           (App2.init (sample_local 3 0)) 0 2 10000 11600);
    [lia|reflexivity|reflexivity| |]; eexists _, _; vm_compute; reflexivity.
Defined.

Lemma tick_fields s :
  App2.nextCallAvailable (App2.tick s)
  = Z.max (Z.min 0 (App2.nextCallAvailable s)) (App2.nextCallAvailable s - 1)
  /\ App2.lastAiCall (App2.tick s) = App2.lastAiCall s
  /\ App2.text (App2.tick s) = App2.text s
  /\ App2.currentPage (App2.tick s) = App2.currentPage s.
Proof.
  unfold App2.tick.
  destruct (Z.leb_spec (App2.nextCallAvailable s) 0); simpl;
    repeat split; lia.
Qed.

Lemma tick_iter s : forall k,
  (0 <= App2.nextCallAvailable s)%Z ->
  App2.nextCallAvailable (Nat.iter k App2.tick s)
  = Z.max 0 (App2.nextCallAvailable s - Z.of_nat k)
  /\ App2.lastAiCall (Nat.iter k App2.tick s) = App2.lastAiCall s
  /\ App2.text (Nat.iter k App2.tick s) = App2.text s
  /\ App2.currentPage (Nat.iter k App2.tick s) = App2.currentPage s.
Proof.
  intros k Hn. induction k as [|k (IHn & IHl & IHt & IHp)].
  - simpl. repeat split. lia.
  - change (Nat.iter (S k) App2.tick s)
      with (App2.tick (Nat.iter k App2.tick s)).
    destruct (tick_fields (Nat.iter k App2.tick s)) as (-> & -> & -> & ->).
    repeat split; auto. lia.
Qed.

(** X14: the countdown shown after a refused invocation loses one unit
    every 100 ms and stops at zero; as the wait is counted in seconds, it
    is over after at most two periods, while the rate limiter still
    refuses until [AI_CALL_DELAY] has passed since the last request. *)
Theorem countdown_after_refusal (key : jsstring) (now : Z) (tr : bool)
    (s : App2.state) (k : nat) :
  (0 <= now - App2.lastAiCall s < App2.AI_CALL_DELAY)%Z ->
  let s1 := snd (App2.callAi key now tr s) in
  App2.nextCallAvailable (Nat.iter k App2.tick s1)
  = Z.max 0 (App2.nextCallAvailable s1 - Z.of_nat k)
  /\ (2 <= k -> App2.nextCallAvailable (Nat.iter k App2.tick s1) = 0%Z)
  /\ (forall later,
        (later - App2.lastAiCall s < App2.AI_CALL_DELAY)%Z ->
        exists wait',
          fst (App2.callAi key later tr (Nat.iter k App2.tick s1))
          = App2.RateLimited wait').
Proof.
  intros Hnow. cbv zeta.
  destruct (callAi_cases key now tr s) as [[_ Hcall]|[Hge _]];
    [|unfold App2.AI_CALL_DELAY in *; lia].
  destruct (ceil_div_1000 (App2.AI_CALL_DELAY - (now - App2.lastAiCall s)))
    as [Hwait _]; [unfold App2.AI_CALL_DELAY in *; lia|].
  rewrite Hcall. cbn [snd].
  set (s1 := {| App2.user := App2.user s |}).
  assert (Hn1 : App2.nextCallAvailable s1
                = ceil_div (App2.AI_CALL_DELAY - (now - App2.lastAiCall s)) 1000)
    by reflexivity.
  destruct (tick_iter s1 k) as (Hn & Hl & _); [rewrite Hn1; lia|].
  split; [exact Hn|]. split.
  - intros Hk. rewrite Hn, Hn1. lia.
  - intros later Hlater.
    destruct (callAi_cases key later tr (Nat.iter k App2.tick s1))
      as [[_ ->]|[Hge _]]; [eauto|].
    rewrite Hl in Hge. simpl in Hge. lia.
Qed.

Lemma countdown_after_refusal_witness :
  App2.nextCallAvailable
    (Nat.iter 2 App2.tick
       (snd (App2.callAi (lit "k") 10400 false
               (snd (App2.callAi (lit "k") 10000 false
                       (App2.init (sample_local 3 0))))))) = 0%Z.
Proof.
  apply (countdown_after_refusal (lit "k") 10400 false
           (snd (App2.callAi (lit "k") 10000 false
                   (App2.init (sample_local 3 0)))) 2);
    [vm_compute; intuition discriminate|lia].
Defined.

(** X15: nothing is translated when the selection is blank; otherwise
    the text sent starts with the first 500 code units of the trimmed
    selection, is that selection when it has at most 500 code units, and
    never has more than 503. *)
Theorem textToTranslate_bounded (selected : jsstring) :
  (blank selected = true -> App2.textToTranslate selected = None)
  /\ (blank selected = false ->
      exists sent,
        App2.textToTranslate selected = Some sent
        /\ sent <> []
        /\ length sent <= 503
        /\ take 500 sent = take 500 (trim selected)
        /\ (length (trim selected) <= 500 -> sent = trim selected)).
Proof.
  unfold App2.textToTranslate. cbv zeta.
  pose proof (trim_blank selected) as Hb. split; intros E; rewrite E in Hb.
  - now rewrite Hb.
  - rewrite Hb. apply negb_false_iff in Hb.
    destruct (Nat.ltb_spec 500 (length (trim selected))) as [Hlong|Hshort].
    + exists (substring0 500 (trim selected) ++ lit "...").
      unfold substring0. repeat split.
      * destruct (trim selected); [discriminate|discriminate].
      * rewrite length_app, length_take.
        change (length (lit "...")) with 3. lia.
      * rewrite take_app_le by (rewrite length_take; lia).
        now rewrite take_take, Nat.min_id.
      * lia.
    + exists (trim selected). repeat split.
      * now destruct (trim selected).
      * lia.
Qed.

Lemma textToTranslate_bounded_witness :
  option_map (fun sent => length sent <=? 503)
    (App2.textToTranslate
       ([32; 10]%N ++ concat (replicate 300 (lit "ab")) ++ [32%N]))
  = Some true.
Proof.
  destruct (textToTranslate_bounded
              ([32; 10]%N ++ concat (replicate 300 (lit "ab")) ++ [32%N]))
    as [_ H].
  destruct H as (sent & -> & _ & Hlen & _); [reflexivity|].
  simpl. f_equal. now apply Nat.leb_le.
Defined.

(** X16: [handleChat] sends nothing and changes nothing when the input
    is blank, a call is under way or no document is loaded; otherwise it
    appends the trimmed input and then the reply, empties the input, and
    the reply is never the one for a missing document. *)
Theorem handleChat_appends (key : jsstring) (now : Z) (reply : jsstring)
    (c : App2.chat) (s : App2.state) :
  (blank (App2.userInput c) = true \/ App2.isAiLoading c = true
   \/ blank (App2.text s) = true ->
      App2.handleChat key now reply c s = (c, s))
  /\ (blank (App2.userInput c) = false -> App2.isAiLoading c = false ->
      blank (App2.text s) = false ->
      exists o,
        fst (App2.callAi key now false s) = o
        /\ o <> App2.NoDocument
        /\ App2.chatHistory (fst (App2.handleChat key now reply c s))
           = App2.chatHistory c
             ++ [(App2.RoleUser, App2.Typed (trim (App2.userInput c)));
                 (App2.RoleBot, App2.response_of o reply)]
        /\ App2.userInput (fst (App2.handleChat key now reply c s)) = []
        /\ snd (App2.handleChat key now reply c s)
           = snd (App2.callAi key now false s)).
Proof.
  unfold App2.handleChat.
  pose proof (trim_blank (App2.userInput c)) as Hi.
  pose proof (trim_blank (App2.text s)) as Ht.
  rewrite Hi, Ht. split.
  - intros [H | [H | H]]; rewrite H; simpl; rewrite ?orb_true_r;
      reflexivity.
  - intros -> -> Hblank. rewrite Hblank. simpl.
    exists (fst (App2.callAi key now false s)).
    split; [reflexivity|]. split.
    + destruct (callAi_cases key now false s)
        as [[_ ->]|[_ [[_ ->]|[(_ & Hb & _)|(_ & _ & cs & m & s' & -> & _)]]]];
        try discriminate. congruence.
    + destruct (App2.callAi key now false s) as [o s']. auto.
Qed.

Lemma handleChat_appends_witness :
  App2.chatHistory
    (fst (App2.handleChat (lit "k") 10000 (lit "fine")
            {| App2.userInput := lit " hello ";
               App2.isAiLoading := false; App2.chatHistory := [] |}
            (App2.init (sample_local 3 0))))
  = [(App2.RoleUser, App2.Typed (lit "hello"));
     (App2.RoleBot, App2.Answer (lit "fine"))].
Proof.
  destruct (handleChat_appends (lit "k") 10000 (lit "fine")
              {| App2.userInput := lit " hello ";
                 App2.isAiLoading := false; App2.chatHistory := [] |}
              (App2.init (sample_local 3 0))) as [_ H].
  destruct H as (o & Ho & _ & -> & _); try reflexivity.
  rewrite <- Ho. vm_compute. reflexivity.
Defined.

(** ** part_000: local storage, library, retries *)

(** X17: what the persistence effect of part_000 writes is what a
    reload reads back: text and page index as saved, the document id
    unless it was empty, the name unless it was empty; and when the saved
    page exists the restore of the reloaded session hands its index to
    [scrollToPage]: the scroll reaches the page when the page elements
    are rendered as the timer fires, and does nothing while the loading
    screen is rendered. *)
Theorem part000_reload_round_trip (s : Part000.state) :
  let s' := Part000.init (Part000.localStorage (Part000.persist s)) in
  Part000.text s' = Part000.text s
  /\ Part000.currentPage s' = Part000.currentPage s
  /\ Part000.currentDocId s'
     = match Part000.currentDocId s with
       | Some d => if truthy d then Some d else None
       | None => None
       end
  /\ Part000.currentDocName s'
     = or_else (Part000.currentDocName s) (lit "Untitled Manuscript")
  /\ Part000.isInitialLoad s' = true
  /\ ((0 <= Part000.currentPage s
       < Z.of_nat (length (Part000.pages (Part000.text s))))%Z ->
      Part000.safePage s' = Some (Part000.currentPage s)
      /\ (forall elements,
            Part000.restoreScroll elements s'
            = scrollToPage elements (Part000.currentPage s))
      /\ Part000.restoreScroll
           (pageElements true (length (Part000.pages (Part000.text s')))) s'
         = Some (Z.to_nat (Part000.currentPage s))
      /\ Part000.restoreScroll
           (pageElements false (length (Part000.pages (Part000.text s')))) s'
         = None).
Proof.
  cbv zeta. set (s' := Part000.init _).
  assert (Htext : Part000.text s' = Part000.text s) by reflexivity.
  do 2 (split; [reflexivity|]).
  split; [unfold s', Part000.init, Part000.persist; simpl;
          now destruct (Part000.currentDocId s)|].
  do 2 (split; [reflexivity|]).
  intros Hrange.
  assert (Hsafe : Part000.safePage s' = Some (Part000.currentPage s)).
  { unfold Part000.safePage. rewrite Htext.
    change (Part000.isInitialLoad s') with true.
    change (Part000.savedPage (Part000.localStorage s'))
      with (Part000.currentPage s).
    replace (0 <? length (Part000.pages (Part000.text s))) with true
      by (symmetry; apply Nat.ltb_lt; lia).
    simpl. f_equal. lia. }
  assert (Hall : forall elements,
             Part000.restoreScroll elements s'
             = scrollToPage elements (Part000.currentPage s)).
  { intros elements. unfold Part000.restoreScroll. now rewrite Hsafe. }
  split; [exact Hsafe|]. split; [exact Hall|]. rewrite !Hall, Htext.
  split.
  - now apply scrollToPage_in_range.
  - apply scrollToPage_no_element.
Qed.

Lemma part000_reload_round_trip_witness :
  let s' := Part000.init
              (Part000.localStorage
                 (Part000.persist (Part000.init (sample_local000 2000 5)))) in
  Part000.restoreScroll (pageElements true 8) s' = Some 5
  /\ Part000.restoreScroll (pageElements false 8) s' = None.
Proof.
  cbv zeta.
  assert (Hrange :
            (0 <= Part000.currentPage (Part000.init (sample_local000 2000 5))
             < Z.of_nat (length (Part000.pages
                  (Part000.text (Part000.init (sample_local000 2000 5))))))%Z)
    by (vm_compute; intuition discriminate).
  destruct (part000_reload_round_trip (Part000.init (sample_local000 2000 5)))
    as (_ & _ & _ & _ & _ & H).
  destruct (H Hrange) as (_ & _ & Hshown & Hloader).
  split; [exact Hshown|exact Hloader].
Defined.

Lemma part000_pages_length_pos text : 0 < length (Part000.pages text).
Proof. apply getPages_length_pos. Qed.

(** X18: choosing in the library a document whose text differs from the
    open one starts a restore: it scrolls to the page index of the
    document that was open, clamped to the last page of the new one;
    until its callback has run the intersection observer records nothing,
    afterwards it does.  Choosing a document with the text of the open
    one starts no restore, and the observer records nothing from then
    on. *)
Theorem open_document_restore (e : jsstring * source) (s : Part000.state) :
  let '(s1, scroll, s2) := Part000.openDocument e s in
  let pageCount := length (Part000.pages (src_content (snd e))) in
  (src_content (snd e) <> Part000.text s ->
      (0 <= Part000.currentPage s)%Z ->
      scroll = Some (Z.to_nat (Z.min (Part000.currentPage s)
                                 (Z.of_nat pageCount - 1)))
      /\ (forall i, Part000.onIntersect i s1 = s1)
      /\ Part000.text s2 = src_content (snd e)
      /\ (forall i, i < pageCount ->
            Part000.currentPage (Part000.onIntersect i s2) = Z.of_nat i))
  /\ (src_content (snd e) = Part000.text s ->
      scroll = None /\ s2 = s1 /\ Part000.currentPage s2 = Part000.currentPage s
      /\ (forall i, Part000.onIntersect i s2 = s2)).
Proof.
  unfold Part000.openDocument. cbv zeta.
  destruct (decide (src_content (snd e) = Part000.text s)) as [Heq|Hne].
  - assert (Htext : Part000.text
                      (Part000.render s (Part000.selectDocument e s))
                    = Part000.text s).
    { unfold Part000.render.
      destruct (bool_decide _); simpl; exact Heq. }
    rewrite bool_decide_eq_true_2 by exact Htext.
    split; [congruence|]. intros _.
    assert (Hinit : Part000.isInitialLoad
                      (Part000.render s (Part000.selectDocument e s)) = true).
    { unfold Part000.render. now destruct (bool_decide _). }
    assert (Hpage : Part000.currentPage
                      (Part000.render s (Part000.selectDocument e s))
                    = Part000.currentPage s).
    { unfold Part000.render. now destruct (bool_decide _). }
    repeat split; auto.
    intros i. unfold Part000.onIntersect. now rewrite Hinit.
  - assert (Hrender : Part000.render s (Part000.selectDocument e s)
                      = Part000.persist (Part000.selectDocument e s)).
    { unfold Part000.render. rewrite bool_decide_eq_false_2; [reflexivity|].
      unfold Part000.save_deps. simpl. congruence. }
    rewrite Hrender. rewrite bool_decide_eq_false_2 by exact Hne.
    unfold Part000.safePage. simpl.
    pose proof (part000_pages_length_pos (src_content (snd e))) as Hpos.
    set (n := length (Part000.pages (src_content (snd e)))) in *.
    replace (0 <? n) with true by (symmetry; apply Nat.ltb_lt; lia).
    simpl. split; [|congruence]. intros _ Hpage.
    unfold Part000.savedPage. simpl. split; [|split; [|split]].
    + unfold scrollToPage.
      set (m := Z.min (Part000.currentPage s) (Z.of_nat n - 1)).
      replace ((0 <=? m)%Z && (m <? Z.of_nat n)%Z) with true
        by (symmetry; apply andb_true_intro; split; unfold m; lia).
      reflexivity.
    + reflexivity.
    + reflexivity.
    + intros i Hi. unfold Part000.onIntersect. simpl. fold n.
      replace (i <? n) with true by (symmetry; apply Nat.ltb_lt; lia).
      reflexivity.
Qed.

Lemma open_document_restore_witness :
  snd (fst (Part000.openDocument (lit "B", sample_source 300)
              (Part000.restoreDone (Part000.init (sample_local000 2000 5)))))
  = Some 1.
Proof.
  pose proof (open_document_restore (lit "B", sample_source 300)
                (Part000.restoreDone (Part000.init (sample_local000 2000 5))))
    as H.
  destruct (Part000.openDocument _ _) as [[s1 scroll] s2].
  destruct H as [H _]. destruct H as [-> _].
  - vm_compute. discriminate.
  - vm_compute. discriminate.
  - vm_compute. reflexivity.
Defined.

Lemma fetchContent_spec server : forall fuel r,
  S fuel + r = S Part000.MAX_RETRIES ->
  let '(res, delays) := Part000.fetchContent (S fuel) server r in
  delays = map Part000.backoff (seq r (length delays))
  /\ r + length delays <= Part000.MAX_RETRIES
  /\ (forall k, r <= k < r + length delays -> is_ok (server k) = false)
  /\ match server (r + length delays) with
     | Part000.Ok text =>
         res = Some (or_else text (lit "No response generated."))
     | _ => r + length delays = Part000.MAX_RETRIES /\ res = None
     end.
Proof.
  unfold Part000.MAX_RETRIES.
  induction fuel as [|fuel IH]; intros r Hr.
  - assert (r = 5) by lia. subst r. simpl.
    destruct (server 5) as [text|status|] eqn:E; simpl;
      rewrite ?andb_false_r; simpl;
      (split; [reflexivity|]); (split; [lia|]); (split; [intros k Hk; lia|]);
      rewrite E; auto.
  - assert (Hlt : r < 5) by lia.
    specialize (IH (S r) ltac:(lia)).
    remember (S fuel) as fuel' eqn:Hfuel.
    cbn [Part000.fetchContent].
    destruct (Part000.fetchContent fuel' server (S r)) as [res delays].
    destruct IH as (Hd & Hlen & Hfail & Hlast).
    unfold Part000.MAX_RETRIES.
    replace (r <? 5) with true by (symmetry; apply Nat.ltb_lt; lia).
    assert (Hretry :
      Part000.backoff r :: delays
      = map Part000.backoff (seq r (length (Part000.backoff r :: delays)))
      /\ r + length (Part000.backoff r :: delays) <= 5
      /\ (is_ok (server r) = false ->
          forall k, r <= k < r + length (Part000.backoff r :: delays) ->
                    is_ok (server k) = false)
      /\ match server (r + length (Part000.backoff r :: delays)) with
         | Part000.Ok text =>
             res = Some (or_else text (lit "No response generated."))
         | _ => r + length (Part000.backoff r :: delays) = 5 /\ res = None
         end).
    { simpl length. split; [simpl; now f_equal|]. split; [lia|]. split.
      - intros Hr0 k Hk. destruct (decide (k = r)) as [->|Hne]; [exact Hr0|].
        apply Hfail. lia.
      - replace (r + S (length delays)) with (S r + length delays) by lia.
        exact Hlast. }
    destruct Hretry as (H1 & H2 & H3 & H4).
    destruct (server r) as [text|status|] eqn:E.
    + simpl. split; [reflexivity|]. split; [lia|].
      split; [intros k Hk; lia|]. rewrite Nat.add_0_r, E. reflexivity.
    + destruct (((status =? 429) || (500 <=? status)) && true);
        repeat split; auto.
    + repeat split; auto.
Qed.

Lemma callAi_delays server :
  snd (Part000.callAi server)
  = map Part000.backoff (seq 0 (length (snd (Part000.callAi server))))
  /\ length (snd (Part000.callAi server)) <= 5.
Proof.
  unfold Part000.callAi.
  pose proof (fetchContent_spec server Part000.MAX_RETRIES 0 ltac:(lia)) as H.
  destruct (Part000.fetchContent (S Part000.MAX_RETRIES) server 0)
    as [res delays].
  destruct H as (Hd & Hlen & _). simpl in *. auto.
Qed.

(** X19: [callAi] of part_000 makes at most six fetches.  It waits
    1, 2, 4, ... seconds after the failed ones, whatever made them fail
    (a rejected fetch or any status that is not [ok]), and returns the
    text of the first answer, the fixed "No response generated." when
    that text is empty, or "AI connection failed." when the six fetches
    have failed. *)
Theorem callAi_retries (server : nat -> Part000.response) :
  let '(result, delays) := Part000.callAi server in
  delays = map Part000.backoff (seq 0 (length delays))
  /\ length delays <= 5
  /\ (forall k, k < length delays -> is_ok (server k) = false)
  /\ match server (length delays) with
     | Part000.Ok text => result = or_else text (lit "No response generated.")
     | _ => length delays = 5 /\ result = lit "AI connection failed."
     end.
Proof.
  unfold Part000.callAi.
  pose proof (fetchContent_spec server Part000.MAX_RETRIES 0 ltac:(lia)) as H.
  destruct (Part000.fetchContent (S Part000.MAX_RETRIES) server 0)
    as [res delays].
  destruct H as (Hd & Hlen & Hfail & Hlast). simpl in Hlen, Hlast.
  unfold Part000.MAX_RETRIES in *.
  split; [exact Hd|]. split; [exact Hlen|].
  split; [intros k Hk; apply Hfail; lia|].
  destruct (server (length delays)); [now rewrite Hlast| |];
    destruct Hlast as [? ->]; auto.
Qed.

Lemma backoff_sum n :
  foldr Z.add 0%Z (map Part000.backoff (seq 0 n))
  = ((2 ^ Z.of_nat n - 1) * 1000)%Z.
Proof.
  induction n as [|n IH]; [reflexivity|].
  rewrite seq_S, map_app, foldr_app. simpl.
  assert (Hshift : forall l a,
            foldr Z.add a l = (foldr Z.add 0 l + a)%Z).
  { induction l as [|x l IHl]; intros a; simpl; [lia|]. rewrite IHl. lia. }
  rewrite Hshift, IH. unfold Part000.backoff.
  rewrite Nat2Z.inj_succ, Z.pow_succ_r by lia. lia.
Qed.

(** X20: the delays [callAi] of part_000 waits add up to
    [(2^n - 1)] seconds for [n] failed fetches, hence to 31 seconds at
    most. *)
Theorem callAi_total_delay (server : nat -> Part000.response) :
  let delays := snd (Part000.callAi server) in
  foldr Z.add 0%Z delays = ((2 ^ Z.of_nat (length delays) - 1) * 1000)%Z
  /\ (foldr Z.add 0%Z delays <= 31000)%Z.
Proof.
  cbv zeta. pose proof (callAi_delays server) as H.
  destruct (Part000.callAi server) as [result delays]. cbn [snd] in *.
  destruct H as (Hd & Hlen).
  assert (Hsum : foldr Z.add 0%Z delays
                 = ((2 ^ Z.of_nat (length delays) - 1) * 1000)%Z).
  { rewrite Hd at 1. apply backoff_sum. }
  split; [exact Hsum|]. rewrite Hsum.
  assert (2 ^ Z.of_nat (length delays) <= 2 ^ 5)%Z
    by (apply Z.pow_le_mono_r; lia).
  lia.
Qed.

(** ** The auto-save writes the current position *)

(** X21: whenever the clock moves on, at most one remote write is
    issued, and it records the position of the state rendered at that
    moment: its user, document, name and page; its time stamp is later
    than the moment before and not later than the new time. *)
Theorem remote_write_is_current (w : App1.world) (T : Z) :
  App1.reachable w ->
  exists fired,
    App1.remote (App1.step w (App1.Elapse T)) = App1.remote w ++ fired
    /\ length fired <= 1
    /\ (forall wr, In wr fired ->
          App1.user (App1.rendered w) = Some (App1.w_user wr)
          /\ App1.currentDocId (App1.rendered w)
             = Some (pos_docId (App1.w_position wr))
          /\ App1.currentDocName (App1.rendered w)
             = pos_docName (App1.w_position wr)
          /\ App1.currentPage (App1.rendered w)
             = pos_page (App1.w_position wr)
          /\ (App1.now w < pos_timestamp (App1.w_position wr)
              <= Z.max (App1.now w) T)%Z).
Proof.
  intros Hreach. pose proof (reachable_inv w Hreach) as Hinv.
  eexists. split; [apply elapse_remote|].
  unfold autosave_inv in Hinv.
  destruct (App1.timers w) as [|tm rest]; [simpl; split; [lia|intros ? []]|].
  destruct Hinv as (-> & _ & _ & Hp & Hdue). simpl.
  unfold App1.is_due.
  destruct (Z.leb_spec (App1.t_due tm) (Z.max (App1.now w) T));
    simpl; (split; [lia|]); [|intros ? []].
  intros wr [<-|[]].
  apply autosave_payload_fields in Hp as (Hu & Hd & Hn & Hpg).
  simpl. repeat split; auto; lia.
Qed.

Lemma remote_write_is_current_witness :
  exists fired,
    App1.remote (App1.step (App1.mount 0 (app1_reading 3)) (App1.Elapse 2500))
    = [] ++ fired
    /\ length fired <= 1.
Proof.
  destruct (remote_write_is_current (App1.mount 0 (app1_reading 3)) 2500
              (App1.reach_mount 0 (app1_reading 3)))
    as (fired & Hr & Hlen & _).
  exists fired. split; [exact Hr|exact Hlen].
Defined.
